(** * A console to-do list manager: the task store of [todo.py]

    The development embeds the Python program [todo.py] (class [TodoApp]
    and the menu loop of [main]) and proves the properties its
    specification states about loading, saving and editing the list.

    - [PyStr]: Python text as sequences of code points, with the [str]
      methods the program calls ([strip], [lower], [split]).
    - [Json]: the values, the decoder ([json.loads]) and the encoder
      ([json.dump] with [indent=2, ensure_ascii=False]) of Python's [json]
      module.
    - [PyFloat]: the binary64 arithmetic and the [.1f] formatting behind
      the completion rate.
    - [Todo]: the world the program runs in (task list, backing file,
      console), a state-and-exception monad, and the methods of [TodoApp]
      with the dispatch of [main]. *)

From Stdlib Require Import String Ascii DecimalString.
From Stdlib Require Import List ZArith NArith Lia Bool.
From Stdlib Require Import SpecFloat.
Import ListNotations.

Local Open Scope N_scope.
Local Open Scope list_scope.
Set Warnings "-register-all".

(* ===================================================================== *)
(** * Python text *)
(* ===================================================================== *)

Module PyStr.

(** A Python [str] is a sequence of Unicode code points. *)
Definition char := N.
Definition pystr := list char.

(** A literal of the source, written as a Rocq string of ASCII
    characters. *)
Definition str (s : string) : pystr :=
  map N_of_ascii (list_ascii_of_string s).

Definition pystr_eq_dec : forall a b : pystr, {a = b} + {a <> b} :=
  list_eq_dec N.eq_dec.

Definition pystr_eqb (a b : pystr) : bool :=
  if pystr_eq_dec a b then true else false.

(** [str.isspace] for one code point: the characters [str.strip()]
    removes. *)
Definition isspace (c : char) : bool :=
  ((9 <=? c) && (c <=? 13)) || ((28 <=? c) && (c <=? 32))
  || (c =? 133) || (c =? 160) || (c =? 5760)
  || ((8192 <=? c) && (c <=? 8202))
  || (c =? 8232) || (c =? 8233) || (c =? 8239) || (c =? 8287)
  || (c =? 12288).

Fixpoint lstrip (s : pystr) : pystr :=
  match s with
  | [] => []
  | c :: r => if isspace c then lstrip r else s
  end.

Definition rstrip (s : pystr) : pystr := rev (lstrip (rev s)).

(** [s.strip()] *)
Definition strip (s : pystr) : pystr := rstrip (lstrip s).

(** [s.lower()], one code point at a time.  The ASCII and Latin-1 capital
    letters are mapped to their small letters; the case tables of the rest
    of Unicode are not embedded and every other code point is kept. *)
Definition lower_char (c : char) : char :=
  if (65 <=? c) && (c <=? 90) then c + 32
  else if (192 <=? c) && (c <=? 222) && negb (c =? 215) then c + 32
  else c.

Definition lower (s : pystr) : pystr := map lower_char s.

(** [s.split(sep)] for a one-character separator: the pieces between the
    occurrences of [sep]; always at least one piece. *)
Fixpoint split (sep : char) (s : pystr) : list pystr :=
  match s with
  | [] => [[]]
  | c :: r =>
      if c =? sep then [] :: split sep r
      else match split sep r with
           | [] => [[c]]
           | p :: ps => (c :: p) :: ps
           end
  end.

(** Truth value of a text: non-empty. *)
Definition nonempty (s : pystr) : bool :=
  match s with [] => false | _ => true end.

(** [sep.join(parts)] *)
Fixpoint join (sep : pystr) (parts : list pystr) : pystr :=
  match parts with
  | [] => []
  | [p] => p
  | p :: ps => p ++ sep ++ join sep ps
  end.

Definition LF : char := 10.
Definition CR : char := 13.

End PyStr.

Import PyStr.

(* ===================================================================== *)
(** * Python's [json] module *)
(* ===================================================================== *)

Module Json.

(** What [json.loads] builds: [None], [bool], [int], [float], [str],
    [list] and [dict].  A [dict] keeps its keys in insertion order.  A
    [float] is carried as the literal it was read from ([NaN], [Infinity]
    and [-Infinity] included): binary floating point is not interpreted
    here, and no task record of the program holds one. *)
Inductive json :=
| JNull
| JBool (b : bool)
| JInt (z : Z)
| JFloat (lit : pystr)
| JStr (s : pystr)
| JArr (items : list json)
| JObj (members : list (pystr * json)).

(** ** Dictionaries *)

(** [d[k]]; [None] stands for [KeyError]. *)
Fixpoint dict_get (d : list (pystr * json)) (k : pystr) : option json :=
  match d with
  | [] => None
  | (k', v) :: r => if pystr_eqb k' k then Some v else dict_get r k
  end.

(** [d[k] = v]: an existing key keeps its place, a new key goes last. *)
Fixpoint dict_set (d : list (pystr * json)) (k : pystr) (v : json)
  : list (pystr * json) :=
  match d with
  | [] => [(k, v)]
  | (k', v') :: r =>
      if pystr_eqb k' k then (k', v) :: r else (k', v') :: dict_set r k v
  end.

(** [dict(pairs)] *)
Definition dict_of_pairs (pairs : list (pystr * json)) : list (pystr * json) :=
  fold_left (fun d kv => dict_set d (fst kv) (snd kv)) pairs [].

(** ** Decoder *)

(** Outcome of scanning a prefix of the text.  [NoFuel] is an artefact of
    the recursion on a fuel counter; [json_loads] supplies enough fuel for
    it never to occur (lemma [scan_once_fuel]). *)
Inductive scanned (A : Type) :=
| Scan (a : A) (rest : pystr)
| BadJson
| NoFuel.
Arguments Scan {A} a rest.
Arguments BadJson {A}.
Arguments NoFuel {A}.

(** [WHITESPACE = re.compile(r'[ \t\n\r]*')] *)
Definition is_ws (c : char) : bool :=
  (c =? 32) || (c =? 9) || (c =? 10) || (c =? 13).

Fixpoint skip_ws (s : pystr) : pystr :=
  match s with
  | [] => []
  | c :: r => if is_ws c then skip_ws r else s
  end.

Definition hexval (c : char) : option N :=
  if (48 <=? c) && (c <=? 57) then Some (c - 48)
  else if (97 <=? c) && (c <=? 102) then Some (c - 87)
  else if (65 <=? c) && (c <=? 70) then Some (c - 55)
  else None.

(** [_decode_uXXXX]: four hexadecimal digits. *)
Definition hex4 (a b c d : char) : option N :=
  match hexval a, hexval b, hexval c, hexval d with
  | Some x, Some y, Some z, Some w => Some (((x * 16 + y) * 16 + z) * 16 + w)
  | _, _, _, _ => None
  end.

(** [BACKSLASH]: the one-letter escapes. *)
Definition unescape (e : char) : option char :=
  if e =? 34 then Some 34          (* quote *)
  else if e =? 92 then Some 92     (* backslash *)
  else if e =? 47 then Some 47     (* slash *)
  else if e =? 98 then Some 8      (* b: backspace *)
  else if e =? 102 then Some 12    (* f: form feed *)
  else if e =? 110 then Some 10    (* n: line feed *)
  else if e =? 114 then Some 13    (* r: carriage return *)
  else if e =? 116 then Some 9     (* t: tab *)
  else None.

Definition is_high_surrogate (u : N) : bool := (55296 <=? u) && (u <=? 56319).
Definition is_low_surrogate (u : N) : bool := (56320 <=? u) && (u <=? 57343).
Definition join_surrogates (hi lo : N) : N :=
  65536 + (N.lor (N.shiftl (hi - 55296) 10) (lo - 56320)).

Definition consed (c : char) (r : option (pystr * pystr))
  : option (pystr * pystr) :=
  match r with
  | Some (t, rest) => Some (c :: t, rest)
  | None => None
  end.

(** [scanstring(s, end, strict=True)], entered after the opening quote:
    the decoded text and what follows the closing quote.  [None] is a
    [JSONDecodeError] (unterminated string, raw control character, invalid
    escape). *)
Fixpoint scanstring (s : pystr) : option (pystr * pystr) :=
  match s with
  | [] => None
  | c :: r =>
      if c =? 34 then Some ([], r)
      else if c =? 92 then
        match r with
        | [] => None
        | e :: r1 =>
            if e =? 117 then
              match r1 with
              | h1 :: h2 :: h3 :: h4 :: r2 =>
                  match hex4 h1 h2 h3 h4 with
                  | None => None
                  | Some uni =>
                      if is_high_surrogate uni then
                        match r2 with
                        | b :: u :: r3 =>
                            if (b =? 92) && (u =? 117) then
                              match r3 with
                              | k1 :: k2 :: k3 :: k4 :: r4 =>
                                  match hex4 k1 k2 k3 k4 with
                                  | None => None
                                  | Some uni2 =>
                                      if is_low_surrogate uni2
                                      then consed (join_surrogates uni uni2)
                                                  (scanstring r4)
                                      else consed uni (scanstring r2)
                                  end
                              | _ => None
                              end
                            else consed uni (scanstring r2)
                        | _ => consed uni (scanstring r2)
                        end
                      else consed uni (scanstring r2)
                  end
              | _ => None
              end
            else
              match unescape e with
              | Some c' => consed c' (scanstring r1)
              | None => None
              end
        end
      else if c <? 32 then None
      else consed c (scanstring r)
  end.

(** [NUMBER_RE]: an integer part (an optional minus sign, then either a
    single zero or a non-zero digit followed by digits), an optional
    fraction (a dot and at least one digit) and an optional exponent (e or
    E, an optional sign and at least one digit).  A dot or an exponent
    mark that is not followed by its digits is left unread. *)
Definition isdigit (c : char) : bool := (48 <=? c) && (c <=? 57).

Fixpoint span_digits (s : pystr) : pystr * pystr :=
  match s with
  | [] => ([], [])
  | c :: r =>
      if isdigit c then let '(ds, r') := span_digits r in (c :: ds, r')
      else ([], s)
  end.

Definition match_integer (s : pystr) : option (pystr * pystr) :=
  let '(sign, s1) :=
    match s with
    | c :: r => if c =? 45 then ([45], r) else ([], s)
    | [] => ([], s)
    end in
  match s1 with
  | d :: r =>
      if d =? 48 then Some (sign ++ [48], r)
      else if isdigit d then
        let '(ds, r') := span_digits r in Some (sign ++ d :: ds, r')
      else None
  | [] => None
  end.

Definition match_frac (s : pystr) : pystr * pystr :=
  match s with
  | c :: r =>
      if c =? 46 then
        match span_digits r with
        | ([], _) => ([], s)
        | (ds, r') => (46 :: ds, r')
        end
      else ([], s)
  | [] => ([], s)
  end.

Definition match_exp (s : pystr) : pystr * pystr :=
  match s with
  | c :: r =>
      if (c =? 101) || (c =? 69) then
        let '(sg, r1) :=
          match r with
          | c' :: r' => if (c' =? 45) || (c' =? 43) then ([c'], r') else ([], r)
          | [] => ([], r)
          end in
        match span_digits r1 with
        | ([], _) => ([], s)
        | (ds, r2) => (c :: sg ++ ds, r2)
        end
      else ([], s)
  | [] => ([], s)
  end.

(** [int(text)] for a literal matched by the integer part of
    [NUMBER_RE]. *)
Definition digits_value (ds : pystr) : Z :=
  fold_left (fun acc c => (acc * 10 + Z.of_N (c - 48))%Z) ds 0%Z.

Definition int_of_literal (lit : pystr) : Z :=
  match lit with
  | c :: ds => if c =? 45 then (- digits_value ds)%Z else digits_value lit
  | [] => 0%Z
  end.

Definition match_number (s : pystr) : option (json * pystr) :=
  match match_integer s with
  | None => None
  | Some (integer, r) =>
      let '(frac, r1) := match_frac r in
      let '(exp, r2) := match_exp r1 in
      if nonempty frac || nonempty exp
      then Some (JFloat (integer ++ frac ++ exp), r2)
      else Some (JInt (int_of_literal integer), r2)
  end.

(** [string[idx:idx + len(lit)] == lit], returning what follows. *)
Fixpoint after_prefix (lit s : pystr) : option pystr :=
  match lit, s with
  | [], _ => Some s
  | a :: lit', b :: s' => if a =? b then after_prefix lit' s' else None
  | _ :: _, [] => None
  end.

(** The literals other than strings, arrays and objects, in the order
    [scan_once] tries them. *)
Definition scan_atom (s : pystr) : scanned json :=
  match after_prefix (str "null") s with
  | Some r => Scan JNull r
  | None =>
  match after_prefix (str "true") s with
  | Some r => Scan (JBool true) r
  | None =>
  match after_prefix (str "false") s with
  | Some r => Scan (JBool false) r
  | None =>
  match match_number s with
  | Some (v, r) => Scan v r
  | None =>
  match after_prefix (str "NaN") s with
  | Some r => Scan (JFloat (str "NaN")) r
  | None =>
  match after_prefix (str "Infinity") s with
  | Some r => Scan (JFloat (str "Infinity")) r
  | None =>
  match after_prefix (str "-Infinity") s with
  | Some r => Scan (JFloat (str "-Infinity")) r
  | None => BadJson
  end end end end end end end.

(** [scan_once], [JSONArray] and [JSONObject].  [parse_array] and
    [parse_object] are entered after the opening bracket, [array_items]
    at the first character of an element and [object_members] after the
    opening quote of a key. *)
Fixpoint scan_once (fuel : nat) (s : pystr) {struct fuel} : scanned json :=
  match fuel with
  | O => NoFuel
  | S f =>
      match s with
      | [] => BadJson
      | c :: r =>
          if c =? 34 then
            match scanstring r with
            | Some (t, r') => Scan (JStr t) r'
            | None => BadJson
            end
          else if c =? 123 then parse_object f r
          else if c =? 91 then parse_array f r
          else scan_atom s
      end
  end

with parse_array (fuel : nat) (s : pystr) {struct fuel} : scanned json :=
  match fuel with
  | O => NoFuel
  | S f =>
      match skip_ws s with
      | [] => BadJson
      | c :: r =>
          if c =? 93 then Scan (JArr []) r
          else match array_items f (c :: r) with
               | Scan vs r' => Scan (JArr vs) r'
               | BadJson => BadJson
               | NoFuel => NoFuel
               end
      end
  end

with array_items (fuel : nat) (s : pystr) {struct fuel}
  : scanned (list json) :=
  match fuel with
  | O => NoFuel
  | S f =>
      match scan_once f s with
      | Scan v r =>
          match skip_ws r with
          | [] => BadJson
          | c :: r1 =>
              if c =? 93 then Scan [v] r1
              else if c =? 44 then
                match array_items f (skip_ws r1) with
                | Scan vs r2 => Scan (v :: vs) r2
                | BadJson => BadJson
                | NoFuel => NoFuel
                end
              else BadJson
          end
      | BadJson => BadJson
      | NoFuel => NoFuel
      end
  end

with parse_object (fuel : nat) (s : pystr) {struct fuel} : scanned json :=
  match fuel with
  | O => NoFuel
  | S f =>
      match skip_ws s with
      | [] => BadJson
      | c :: r =>
          if c =? 125 then Scan (JObj []) r
          else if c =? 34 then
            match object_members f r with
            | Scan ps r' => Scan (JObj (dict_of_pairs ps)) r'
            | BadJson => BadJson
            | NoFuel => NoFuel
            end
          else BadJson
      end
  end

with object_members (fuel : nat) (s : pystr) {struct fuel}
  : scanned (list (pystr * json)) :=
  match fuel with
  | O => NoFuel
  | S f =>
      match scanstring s with
      | None => BadJson
      | Some (key, r) =>
          match skip_ws r with
          | [] => BadJson
          | c :: r1 =>
              if c =? 58 then
                match scan_once f (skip_ws r1) with
                | Scan v r2 =>
                    match skip_ws r2 with
                    | [] => BadJson
                    | d :: r3 =>
                        if d =? 125 then Scan [(key, v)] r3
                        else if d =? 44 then
                          match skip_ws r3 with
                          | [] => BadJson
                          | q :: r4 =>
                              if q =? 34 then
                                match object_members f r4 with
                                | Scan ps r5 => Scan ((key, v) :: ps) r5
                                | BadJson => BadJson
                                | NoFuel => NoFuel
                                end
                              else BadJson
                          end
                        else BadJson
                    end
                | BadJson => BadJson
                | NoFuel => NoFuel
                end
              else BadJson
          end
      end
  end.

(** Fuel that covers every call chain of the scanner on a text. *)
Definition fuel_for (s : pystr) : nat := 3 * length s + 1.

(** [json.loads(s)]; [None] is [json.JSONDecodeError].  The interpreter's
    own limits (recursion depth, number of digits of an integer) are not
    modelled. *)
Definition json_loads (s : pystr) : option json :=
  match s with
  | 65279 :: _ => None                       (* unexpected UTF-8 BOM *)
  | _ =>
      let s0 := skip_ws s in
      match scan_once (fuel_for s0) s0 with
      | Scan v r => match skip_ws r with [] => Some v | _ :: _ => None end
      | BadJson => None
      | NoFuel => None
      end
  end.

(** ** Encoder *)

Definition hexdigit (n : N) : char := if n <? 10 then 48 + n else 87 + n.

(** [ESCAPE_DCT] of [encode_basestring] (the encoder used with
    [ensure_ascii=False]): quote, backslash and the control characters
    below U+0020 are escaped; everything else is written as it is. *)
Definition escape_char (c : char) : pystr :=
  if c =? 34 then [92; 34]
  else if c =? 92 then [92; 92]
  else if c =? 10 then [92; 110]
  else if c =? 13 then [92; 114]
  else if c =? 9 then [92; 116]
  else if c =? 8 then [92; 98]
  else if c =? 12 then [92; 102]
  else if c <? 32 then [92; 117; 48; 48; hexdigit (c / 16); hexdigit (c mod 16)]
  else [c].

Definition encode_basestring (s : pystr) : pystr :=
  34 :: flat_map escape_char s ++ [34].

(** [int.__repr__] *)
Definition int_repr (z : Z) : pystr :=
  str (NilZero.string_of_int (Z.to_int z)).

(** A line break followed by the indentation of a nesting level
    ([indent=2]). *)
Definition newline_indent (level : nat) : pystr :=
  LF :: repeat 32 (2 * level).

(** The text [json.dump(v, file, indent=2, ensure_ascii=False)] writes for
    a value at a nesting level: items one per line, separated by a comma,
    a colon and a space between a key and its value, and the empty list
    and dictionary on one line. *)
Fixpoint encode (level : nat) (v : json) {struct v} : pystr :=
  match v with
  | JNull => str "null"
  | JBool true => str "true"
  | JBool false => str "false"
  | JInt z => int_repr z
  | JFloat lit => lit
  | JStr s => encode_basestring s
  | JArr items =>
      match items with
      | [] => str "[]"
      | _ :: _ =>
          91 :: newline_indent (S level)
          ++ join (44 :: newline_indent (S level))
                  (map (encode (S level)) items)
          ++ newline_indent level ++ [93]
      end
  | JObj members =>
      match members with
      | [] => str "{}"
      | _ :: _ =>
          123 :: newline_indent (S level)
          ++ join (44 :: newline_indent (S level))
                  (map (fun kv =>
                          match kv with
                          | (k, x) =>
                              encode_basestring k ++ [58; 32]
                              ++ encode (S level) x
                          end) members)
          ++ newline_indent level ++ [125]
      end
  end.

Definition json_dumps (v : json) : pystr := encode 0 v.

(** ** Truth values and item access, as the program uses them *)

(** [bool(v)].  A float literal is false when all its mantissa digits are
    zero. *)
Definition float_is_zero (lit : pystr) : bool :=
  let mantissa :=
    (fix upto (s : pystr) : pystr :=
       match s with
       | [] => []
       | c :: r => if (c =? 101) || (c =? 69) then [] else c :: upto r
       end) lit in
  forallb (fun c => negb (isdigit c) || (c =? 48)) mantissa
  && existsb isdigit mantissa.

Definition truthy (v : json) : bool :=
  match v with
  | JNull => false
  | JBool b => b
  | JInt z => negb (z =? 0)%Z
  | JFloat lit => negb (float_is_zero lit)
  | JStr s => nonempty s
  | JArr items => match items with [] => false | _ => true end
  | JObj members => match members with [] => false | _ => true end
  end.

(** [v[key]] for a text key: only a [dict] that has the key answers;
    [None] stands for the [KeyError] or [TypeError] raised otherwise. *)
Definition get_item (v : json) (key : pystr) : option json :=
  match v with
  | JObj members => dict_get members key
  | _ => None
  end.

(** [v[key] = x] for a text key: only a [dict] accepts it; [None] stands
    for the [TypeError] raised otherwise. *)
Definition set_item (v : json) (key : pystr) (x : json) : option json :=
  match v with
  | JObj members => Some (JObj (dict_set members key x))
  | _ => None
  end.

End Json.

Import Json.

(* ===================================================================== *)
(** * Python floats *)
(* ===================================================================== *)

Module PyFloat.

(** A Python [float] is an IEEE 754 binary64 number. *)
Definition float := spec_float.

Definition prec : Z := 53.
Definition emax : Z := 1024.

(** [float(n)] for a Python [int]. *)
Definition of_int (n : Z) : float := binary_normalize prec emax n 0 false.

(** [a / b] for two [int]s (true division): both are below 2^53 for the
    sizes of a list, so the quotient of their conversions is the
    correctly rounded quotient Python returns. *)
Definition int_truediv (a b : Z) : float :=
  SFdiv prec emax (of_int a) (of_int b).

Definition mul (x y : float) : float := SFmul prec emax x y.

(** The non-negative integer nearest to [m * 2^e * 10], ties to even: the
    tenths shown by the fixed-point format with one decimal. *)
Definition tenths (m : positive) (e : Z) : Z :=
  let n := (Z.pos m * 10)%Z in
  match e with
  | Z0 => n
  | Zpos _ => Z.shiftl n e
  | Zneg _ =>
      let d := Z.shiftl 1 (- e) in
      let q := (n / d)%Z in
      let r := (n mod d)%Z in
      if (d <? 2 * r)%Z then (q + 1)%Z
      else if (d =? 2 * r)%Z then (if Z.even q then q else (q + 1)%Z)
      else q
  end.

Definition decimal (z : Z) : pystr :=
  str (NilZero.string_of_int (Z.to_int z)).

(** The sign of a finite float and its value in tenths, rounded to the
    nearest tenth with ties to even. *)
Definition nearest_tenths (x : float) : option (bool * Z) :=
  match x with
  | S754_zero s => Some (s, 0%Z)
  | S754_finite s m e => Some (s, tenths m e)
  | _ => None
  end.

(** [format(x, '.1f')] *)
Definition format_1f (x : float) : pystr :=
  match nearest_tenths x with
  | Some (s, t) =>
      (if s then [45] else [])
      ++ decimal (t / 10) ++ [46] ++ decimal (t mod 10)
  | None =>
      match x with
      | S754_infinity true => str "-inf"
      | S754_infinity false => str "inf"
      | _ => str "nan"
      end
  end.

End PyFloat.

(* ===================================================================== *)
(** * The program *)
(* ===================================================================== *)

Module Todo.

(** ** The world the program runs in *)

(** The backing file [self.filename], as text.  [Unreadable] is a path
    that exists but cannot be opened or decoded as UTF-8. *)
Inductive file_state :=
| Absent
| Unreadable
| Text (content : pystr).

(** How the file system answers [open(self.filename, 'w')] and the writes
    that follow: the file may refuse to open; a write that fails after the
    file was opened (and emptied) leaves the first [torn] characters of
    the text behind. *)
Record disk := {
  open_ok : bool;
  write_ok : bool;
  torn : nat
}.

(** What [print] shows: one constructor per message of the source, with
    the values formatted into it. *)
Inductive message :=
| CreatingNewFile
| ErrorLoading
| ErrorSaving
| EmptyDescription
| TaskAdded (description : pystr)
| FailedToSaveTask
| FailedToSaveChanges
| TaskRemoved (task : json)
| InvalidTaskNumber (len : nat)
| ErrorRemoving
| MarkedComplete (task : json)
| ErrorMarkingComplete
| MarkedIncomplete (task : json)
| ErrorMarkingIncomplete
| TaskUpdated (old : json) (new : pystr)
| ErrorEditing
| NoTasksFound
| ListHeader (total completed pending : nat)
| TaskRow (position : nat) (done : bool) (task : json) (created : json)
| ListFooter
| AllCaughtUp
| PendingHeader
| PendingRow (position : nat) (task : json) (created : json)
| PendingFooter (pending : nat)
| NoCompletedToClear
| FoundCompleted (n : nat)
| CompletedItem (task : json)
| CompletedCleared (n : nat)
| OperationCancelled
| NoTasksToAnalyze
| Statistics (total completed pending : nat) (rate : pystr)
| Menu
| InvalidChoice
| NoTasksAvailable
| EnterNumberBetween (len : nat)
| EnterValidNumber
| TaskCannotBeEmpty
| CurrentTask (task : json)
| RemovalCancelled
| Farewell (pending : option nat).

(** The prompts of [input]. *)
Inductive prompt :=
| AskChoice
| AskTaskNumber
| AskNewTask
| AskNewDescription
| AskConfirmRemove (task : json)
| AskConfirmClear (n : nat)
| AskContinue.

(** What the program does to its surroundings. *)
Inductive event :=
| Printed (m : message)
| Asked (p : prompt)
| OpenedForWriting.

Record world := {
  tasks : list json;       (* self.tasks *)
  file : file_state;       (* the file self.filename *)
  fs : disk;               (* how the file system takes the next write *)
  now : pystr;             (* datetime.now().strftime(...) *)
  stdin : list pystr;      (* the lines the user is going to type *)
  trace : list event       (* what happened so far, latest first *)
}.

Definition set_tasks (l : list json) (w : world) : world :=
  {| tasks := l; file := file w; fs := fs w; now := now w;
     stdin := stdin w; trace := trace w |}.

Definition set_file (f : file_state) (w : world) : world :=
  {| tasks := tasks w; file := f; fs := fs w; now := now w;
     stdin := stdin w; trace := trace w |}.

Definition set_stdin (l : list pystr) (w : world) : world :=
  {| tasks := tasks w; file := file w; fs := fs w; now := now w;
     stdin := l; trace := trace w |}.

Definition log (e : event) (w : world) : world :=
  {| tasks := tasks w; file := file w; fs := fs w; now := now w;
     stdin := stdin w; trace := e :: trace w |}.

(** ** Computations: state and exceptions *)

Inductive exn :=
| ItemError      (* KeyError or TypeError of a subscript *)
| FormatError    (* TypeError of a format specification *)
| IOError        (* OSError, UnicodeError *)
| EOFError.

Inductive result (A : Type) :=
| Ok (a : A)
| Raised (e : exn).
Arguments Ok {A} a.
Arguments Raised {A} e.

(** A statement of the program: it ends with a value or an exception, and
    what it did to the world before an exception stays done. *)
Definition M (A : Type) := world -> result A * world.

Definition ret {A} (a : A) : M A := fun w => (Ok a, w).

Definition bind {A B} (c : M A) (k : A -> M B) : M B :=
  fun w =>
    match c w with
    | (Ok a, w') => k a w'
    | (Raised e, w') => (Raised e, w')
    end.

Definition raise {A} (e : exn) : M A := fun w => (Raised e, w).

(** [try: c except Exception: h] *)
Definition try_except {A} (c : M A) (h : M A) : M A :=
  fun w =>
    match c w with
    | (Ok a, w') => (Ok a, w')
    | (Raised _, w') => h w'
    end.

Declare Scope todo_scope.
Delimit Scope todo_scope with todo.
Notation "x <- c ;; k" := (bind c (fun x => k))
  (at level 61, c at next level, right associativity) : todo_scope.
Notation "c ;; k" := (bind c (fun _ => k))
  (at level 61, right associativity) : todo_scope.
Local Open Scope todo_scope.

Definition print (m : message) : M unit :=
  fun w => (Ok tt, log (Printed m) w).

Definition get_tasks : M (list json) := fun w => (Ok (tasks w), w).

Definition put_tasks (l : list json) : M unit :=
  fun w => (Ok tt, set_tasks l w).

Definition lift {A} (o : option A) (e : exn) : M A :=
  match o with
  | Some a => ret a
  | None => raise e
  end.

(** [input(prompt)]: the prompt is shown and the next line is taken;
    [EOFError] at the end of the input. *)
Definition input (p : prompt) : M pystr :=
  fun w =>
    match stdin w with
    | line :: rest => (Ok line, set_stdin rest (log (Asked p) w))
    | [] => (Raised EOFError, log (Asked p) w)
    end.

(** Reading in text mode translates the line ends CR LF and CR to LF. *)
Fixpoint universal_newlines (s : pystr) : pystr :=
  match s with
  | [] => []
  | c :: r =>
      if c =? CR then
        match r with
        | d :: r' => if d =? LF then LF :: universal_newlines r'
                     else LF :: universal_newlines r
        | [] => [LF]
        end
      else c :: universal_newlines r
  end.

(** [os.path.exists(self.filename)] *)
Definition path_exists : M bool :=
  fun w => (Ok (match file w with Absent => false | _ => true end), w).

(** [with open(self.filename, 'r', encoding='utf-8') as file: file.read()] *)
Definition read_file : M pystr :=
  fun w =>
    match file w with
    | Text t => (Ok (universal_newlines t), w)
    | _ => (Raised IOError, w)
    end.

(** Text that UTF-8 can encode: no surrogate code point. *)
Definition encodable (t : pystr) : bool :=
  forallb (fun c => negb ((55296 <=? c) && (c <=? 57343)) && (c <? 1114112)) t.

(** [with open(self.filename, 'w', encoding='utf-8') as file:
    json.dump(self.tasks, file, indent=2, ensure_ascii=False)], for the
    text [t] that [json.dump] produces. *)
Definition write_file (t : pystr) : M unit :=
  fun w =>
    let w1 := log OpenedForWriting w in
    if open_ok (fs w) then
      if write_ok (fs w) && encodable t
      then (Ok tt, set_file (Text t) w1)
      else (Raised IOError, set_file (Text (firstn (torn (fs w)) t)) w1)
    else (Raised IOError, w1).

(** ** Task records *)

Definition k_task : pystr := str "task".
Definition k_completed : pystr := str "completed".
Definition k_created : pystr := str "created".

(** The dictionary literal [{"task": d, "completed": c, "created": t}]. *)
Definition record (d : pystr) (c : bool) (t : pystr) : json :=
  JObj [(k_task, JStr d); (k_completed, JBool c); (k_created, JStr t)].

(** [[f(x) for x in l]] where [f] may raise. *)
Fixpoint traverse {A B} (f : A -> option B) (l : list A) : option (list B) :=
  match l with
  | [] => Some []
  | x :: r =>
      match f x with
      | None => None
      | Some y =>
          match traverse f r with
          | None => None
          | Some ys => Some (y :: ys)
          end
      end
  end.

(** [task["completed"]] as a truth value. *)
Definition is_completed (task : json) : option bool :=
  option_map truthy (get_item task k_completed).

(** [[task for task in tasks if task["completed"]]] when [keep] is [true];
    with [not task["completed"]] when it is [false]. *)
Fixpoint select_completed (keep : bool) (l : list json)
  : option (list json) :=
  match l with
  | [] => Some []
  | t :: r =>
      match is_completed t with
      | None => None
      | Some c =>
          match select_completed keep r with
          | None => None
          | Some r' => Some (if Bool.eqb c keep then t :: r' else r')
          end
      end
  end.

(** ** [class TodoApp] *)

(** The legacy reading of a file: one record per non-blank line. *)
Definition legacy_tasks (content : pystr) : list json :=
  map (fun line => record (strip line) false [])
      (filter (fun line => nonempty (strip line)) (split LF content)).

Definition load_tasks : M unit :=
  try_except
    (present <- path_exists ;;
     if present : bool then
       text <- read_file ;;
       let content := strip text in
       if nonempty content then
         match json_loads content with
         | Some (JArr data) => put_tasks data
         | Some _ => put_tasks (legacy_tasks content)
         | None => put_tasks (legacy_tasks content)
         end
       else put_tasks []
     else
       put_tasks [] ;;
       print CreatingNewFile)
    (print ErrorLoading ;;
     put_tasks []).

Definition save_tasks : M bool :=
  try_except
    (l <- get_tasks ;;
     write_file (json_dumps (JArr l)) ;;
     ret true)
    (print ErrorSaving ;;
     ret false).

Definition add_task (task_description : pystr) : M bool :=
  if negb (nonempty (strip task_description)) then
    print EmptyDescription ;;
    ret false
  else
    stamp <- (fun w => (Ok (now w), w)) ;;
    let new_task := record (strip task_description) false stamp in
    l <- get_tasks ;;
    put_tasks (l ++ [new_task]) ;;
    saved <- save_tasks ;;
    if saved : bool then
      print (TaskAdded task_description) ;;
      ret true
    else
      print FailedToSaveTask ;;
      ret false.

(** [1 <= task_index <= len(self.tasks)] *)
Definition in_range (task_index : Z) (l : list json) : bool :=
  ((1 <=? task_index) && (task_index <=? Z.of_nat (length l)))%Z.

(** Position [task_index - 1] of a list, for an index in range. *)
Definition slot (task_index : Z) : nat := Z.to_nat (task_index - 1).

(** [l.pop(i)] for [i] in range: the list without its element [i]. *)
Definition without (i : nat) (l : list json) : list json :=
  firstn i l ++ skipn (S i) l.

(** [l[i] = x] for [i] in range. *)
Fixpoint replace_nth (i : nat) (x : json) (l : list json) : list json :=
  match l, i with
  | [], _ => []
  | _ :: r, O => x :: r
  | y :: r, S j => y :: replace_nth j x r
  end.

(** [self.tasks[task_index - 1]], for an index in range. *)
Definition task_at (task_index : Z) : M json :=
  l <- get_tasks ;;
  ret (nth (slot task_index) l JNull).

(** [self.tasks[task_index - 1][key]] *)
Definition task_field (task_index : Z) (key : pystr) : M json :=
  t <- task_at task_index ;;
  lift (get_item t key) ItemError.

(** [self.tasks[task_index - 1][key] = x] *)
Definition set_task_field (task_index : Z) (key : pystr) (x : json)
  : M unit :=
  t <- task_at task_index ;;
  t' <- lift (set_item t key x) ItemError ;;
  l <- get_tasks ;;
  put_tasks (replace_nth (slot task_index) t' l).

Definition invalid_index : M bool :=
  l <- get_tasks ;;
  print (InvalidTaskNumber (length l)) ;;
  ret false.

Definition remove_task (task_index : Z) : M bool :=
  try_except
    (l <- get_tasks ;;
     if in_range task_index l then
       removed_task <- task_at task_index ;;
       put_tasks (without (slot task_index) l) ;;
       saved <- save_tasks ;;
       if saved : bool then
         d <- lift (get_item removed_task k_task) ItemError ;;
         print (TaskRemoved d) ;;
         ret true
       else
         print FailedToSaveChanges ;;
         ret false
     else invalid_index)
    (print ErrorRemoving ;;
     ret false).

(** The common body of [mark_complete] ([value] is [True]) and
    [mark_incomplete] ([value] is [False]), which differ in the flag they
    store and in their messages. *)
Definition mark (value : bool) (done : json -> message) (failed : message)
           (task_index : Z) : M bool :=
  try_except
    (l <- get_tasks ;;
     if in_range task_index l then
       set_task_field task_index k_completed (JBool value) ;;
       saved <- save_tasks ;;
       if saved : bool then
         d <- task_field task_index k_task ;;
         print (done d) ;;
         ret true
       else
         print FailedToSaveChanges ;;
         ret false
     else invalid_index)
    (print failed ;;
     ret false).

Definition mark_complete : Z -> M bool :=
  mark true MarkedComplete ErrorMarkingComplete.

Definition mark_incomplete : Z -> M bool :=
  mark false MarkedIncomplete ErrorMarkingIncomplete.

Definition edit_task (task_index : Z) (new_description : pystr) : M bool :=
  try_except
    (l <- get_tasks ;;
     if in_range task_index l then
       if negb (nonempty (strip new_description)) then
         print EmptyDescription ;;
         ret false
       else
         old_task <- task_field task_index k_task ;;
         set_task_field task_index k_task (JStr (strip new_description)) ;;
         saved <- save_tasks ;;
         if saved : bool then
           print (TaskUpdated old_task new_description) ;;
           ret true
         else
           print FailedToSaveChanges ;;
           ret false
     else invalid_index)
    (print ErrorEditing ;;
     ret false).

(** [task.get("created", "")], for a task that is a dictionary. *)
Definition created_of (task : json) : json :=
  match get_item task k_created with
  | Some c => c
  | None => JStr []
  end.

(** Values that take the format specification [<40]: [None], lists and
    dictionaries raise [TypeError]. *)
Definition accepts_format_spec (v : json) : bool :=
  match v with
  | JNull | JArr _ | JObj _ => false
  | _ => true
  end.

(** [sum(1 for task in tasks if task["completed"])] *)
Definition count_completed (l : list json) : option nat :=
  option_map (@length json) (select_completed true l).

(** The text [task['task']] as a row shows it, padded by [<40]. *)
Definition row_text (task : json) : M json :=
  d <- lift (get_item task k_task) ItemError ;;
  if accepts_format_spec d then ret d else raise FormatError.

(** The loop of [view_tasks] over [enumerate(self.tasks, i)]. *)
Fixpoint view_rows (show_completed : bool) (i : nat) (l : list json)
  : M unit :=
  match l with
  | [] => ret tt
  | task :: r =>
      c <- lift (is_completed task) ItemError ;;
      (if show_completed || negb c then
         d <- row_text task ;;
         print (TaskRow i c d (created_of task))
       else ret tt) ;;
      view_rows show_completed (S i) r
  end.

Definition view_tasks (show_completed : bool) : M unit :=
  l <- get_tasks ;;
  match l with
  | [] => print NoTasksFound
  | _ :: _ =>
      completed_count <- lift (count_completed l) ItemError ;;
      let pending_count := (length l - completed_count)%nat in
      print (ListHeader (length l) completed_count pending_count) ;;
      view_rows show_completed 1 l ;;
      print ListFooter
  end.

(** The loop of [view_pending_tasks], returning [pending_count]. *)
Fixpoint pending_rows (i : nat) (l : list json) (pending_count : nat)
  : M nat :=
  match l with
  | [] => ret pending_count
  | task :: r =>
      c <- lift (is_completed task) ItemError ;;
      if c : bool then pending_rows (S i) r pending_count
      else
        d <- row_text task ;;
        print (PendingRow i d (created_of task)) ;;
        pending_rows (S i) r (S pending_count)
  end.

Definition view_pending_tasks : M unit :=
  l <- get_tasks ;;
  pending_tasks <- lift (select_completed false l) ItemError ;;
  match pending_tasks with
  | [] => print AllCaughtUp
  | _ :: _ =>
      print PendingHeader ;;
      pending_count <- pending_rows 1 l 0 ;;
      print (PendingFooter pending_count)
  end.

(** [confirm in ['y', 'yes']] for [confirm = answer.strip().lower()] *)
Definition is_yes (answer : pystr) : bool :=
  let confirm := lower (strip answer) in
  pystr_eqb confirm (str "y") || pystr_eqb confirm (str "yes").

(** The loop of [clear_completed] that lists what is about to go. *)
Fixpoint list_completed (l : list json) : M unit :=
  match l with
  | [] => ret tt
  | task :: r =>
      d <- lift (get_item task k_task) ItemError ;;
      print (CompletedItem d) ;;
      list_completed r
  end.

Definition clear_completed : M bool :=
  l <- get_tasks ;;
  completed_tasks <- lift (select_completed true l) ItemError ;;
  match completed_tasks with
  | [] =>
      print NoCompletedToClear ;;
      ret false
  | _ :: _ =>
      print (FoundCompleted (length completed_tasks)) ;;
      list_completed completed_tasks ;;
      answer <- input (AskConfirmClear (length completed_tasks)) ;;
      if is_yes answer then
        kept <- lift (select_completed false l) ItemError ;;
        put_tasks kept ;;
        saved <- save_tasks ;;
        if saved : bool then
          print (CompletedCleared (length completed_tasks)) ;;
          ret true
        else
          print FailedToSaveChanges ;;
          ret false
      else
        print OperationCancelled ;;
        ret false
  end.

(** [(completed / total) * 100] *)
Definition percentage (completed total : nat) : PyFloat.float :=
  PyFloat.mul (PyFloat.int_truediv (Z.of_nat completed) (Z.of_nat total))
              (PyFloat.of_int 100).

(** [completion_rate = (completed / total) * 100 if total > 0 else 0],
    formatted with [.1f]. *)
Definition completion_rate (completed total : nat) : pystr :=
  if (0 <? total)%nat
  then PyFloat.format_1f (percentage completed total)
  else str "0.0".

Definition get_task_stats : M unit :=
  l <- get_tasks ;;
  match l with
  | [] => print NoTasksToAnalyze
  | _ :: _ =>
      let total := length l in
      completed <- lift (count_completed l) ItemError ;;
      let pending := (total - completed)%nat in
      print (Statistics total completed pending
                        (completion_rate completed total))
  end.

(** [TodoApp()]: the constructor. *)
Definition init : M unit :=
  put_tasks [] ;;
  load_tasks.

(** ** The menu loop *)

(** [int(text)]: an optional sign and decimal digits, which single
    underscores may separate, between optional blanks; [None] is
    [ValueError].  Only the ASCII digits are recognised. *)
Fixpoint int_digits (s : pystr) (acc : Z) (after_digit : bool) : option Z :=
  match s with
  | [] => if after_digit then Some acc else None
  | c :: r =>
      if isdigit c then int_digits r (acc * 10 + Z.of_N (c - 48))%Z true
      else if (c =? 95) && after_digit then int_digits r acc false
      else None
  end.

Definition py_int (text : pystr) : option Z :=
  match strip text with
  | c :: r =>
      if c =? 45 then option_map Z.opp (int_digits r 0%Z false)
      else if c =? 43 then int_digits r 0%Z false
      else int_digits (c :: r) 0%Z false
  | [] => None
  end.

(** [choice in [str(i) for i in range(1, 11)]], with [int(choice)]. *)
Definition menu_choice (choice : pystr) : option Z :=
  match choice with
  | [c] => if (49 <=? c) && (c <=? 57) then Some (Z.of_N (c - 48)) else None
  | [49; 48] => Some 10%Z
  | _ => None
  end.

(** [get_menu_choice]: ask until the answer is a menu number.  The loop
    runs over the lines still to be typed, one per round. *)
Fixpoint menu_loop (lines : list pystr) (tr : list event)
  : result Z * list pystr * list event :=
  match lines with
  | [] => (Raised EOFError, [], Asked AskChoice :: tr)
  | line :: rest =>
      match menu_choice (strip line) with
      | Some n => (Ok n, rest, Asked AskChoice :: tr)
      | None => menu_loop rest (Printed InvalidChoice :: Asked AskChoice :: tr)
      end
  end.

Definition get_menu_choice : M Z :=
  fun w =>
    let '(r, rest, tr) := menu_loop (stdin w) (trace w) in
    (r, {| tasks := tasks w; file := file w; fs := fs w; now := now w;
           stdin := rest; trace := tr |}).

(** The [while True] loop of [get_task_number], for a list of [len]
    tasks. *)
Fixpoint number_loop (len : nat) (lines : list pystr) (tr : list event)
  : result Z * list pystr * list event :=
  match lines with
  | [] => (Raised EOFError, [], Asked AskTaskNumber :: tr)
  | line :: rest =>
      match py_int (strip line) with
      | Some n =>
          if ((1 <=? n) && (n <=? Z.of_nat len))%Z
          then (Ok n, rest, Asked AskTaskNumber :: tr)
          else number_loop len rest
                 (Printed (EnterNumberBetween len) :: Asked AskTaskNumber :: tr)
      | None =>
          number_loop len rest
            (Printed EnterValidNumber :: Asked AskTaskNumber :: tr)
      end
  end.

(** [get_task_number(todo_app, prompt)]; [None] when there is no task. *)
Definition get_task_number : M (option Z) :=
  l <- get_tasks ;;
  match l with
  | [] =>
      print NoTasksAvailable ;;
      ret None
  | _ :: _ =>
      fun w =>
        let '(r, rest, tr) := number_loop (length l) (stdin w) (trace w) in
        (match r with Ok n => Ok (Some n) | Raised e => Raised e end,
         {| tasks := tasks w; file := file w; fs := fs w; now := now w;
            stdin := rest; trace := tr |})
  end.

(** The branches of [main]'s loop, by menu choice. *)

Definition choose_add : M unit :=
  answer <- input AskNewTask ;;
  let task := strip answer in
  if nonempty task then
    add_task task ;; ret tt
  else print TaskCannotBeEmpty.

Definition choose_mark (op : Z -> M bool) : M unit :=
  view_tasks true ;;
  task_num <- get_task_number ;;
  match task_num with
  | Some n => op n ;; ret tt
  | None => ret tt
  end.

Definition choose_edit : M unit :=
  view_tasks true ;;
  task_num <- get_task_number ;;
  match task_num with
  | Some n =>
      current_task <- task_field n k_task ;;
      print (CurrentTask current_task) ;;
      answer <- input AskNewDescription ;;
      let new_task := strip answer in
      if nonempty new_task then
        edit_task n new_task ;; ret tt
      else print EmptyDescription
  | None => ret tt
  end.

Definition choose_remove : M unit :=
  view_tasks true ;;
  task_num <- get_task_number ;;
  match task_num with
  | Some n =>
      task_to_remove <- task_field n k_task ;;
      answer <- input (AskConfirmRemove task_to_remove) ;;
      if is_yes answer then
        remove_task n ;; ret tt
      else print RemovalCancelled
  | None => ret tt
  end.

Definition choose_clear : M unit :=
  clear_completed ;; ret tt.

Definition choose_exit : M unit :=
  l <- get_tasks ;;
  match l with
  | [] => print (Farewell None)
  | _ :: _ =>
      pending_tasks <- lift (select_completed false l) ItemError ;;
      print (Farewell (Some (length pending_tasks)))
  end.

(** One round of the [while True] loop of [main]: [true] when the loop
    goes on, [false] after the exit choice. *)
Definition main_round : M bool :=
  print Menu ;;
  choice <- get_menu_choice ;;
  if (choice =? 10)%Z then
    choose_exit ;; ret false
  else
    (if (choice =? 1)%Z then choose_add
     else if (choice =? 2)%Z then view_tasks true
     else if (choice =? 3)%Z then view_pending_tasks
     else if (choice =? 4)%Z then choose_mark mark_complete
     else if (choice =? 5)%Z then choose_mark mark_incomplete
     else if (choice =? 6)%Z then choose_edit
     else if (choice =? 7)%Z then choose_remove
     else if (choice =? 8)%Z then choose_clear
     else if (choice =? 9)%Z then get_task_stats
     else ret tt) ;;
    input AskContinue ;;
    ret true.

End Todo.

Import Todo.
Local Open Scope todo_scope.

(* ===================================================================== *)
(** * What saving does *)
(* ===================================================================== *)

(** Unfolds the plumbing of a statement (sequencing, handlers, access to
    the task list) and leaves the calls to [save_tasks], to the file and
    to the console in place. *)
Ltac run :=
  cbv beta iota delta
    [bind ret raise try_except get_tasks put_tasks lift task_at task_field
     set_task_field invalid_index print].

(** The text [save_tasks] sends to the file. *)
Definition saved_text (w : world) : pystr := json_dumps (JArr (tasks w)).

(** The write goes through: the file opens, the disk takes the text and
    the text can be encoded. *)
Definition write_succeeds (w : world) : bool :=
  open_ok (fs w) && (write_ok (fs w) && encodable (saved_text w)).

(** [save_tasks] never raises; this is its effect, case by case. *)
Lemma save_tasks_eq (w : world) :
  save_tasks w =
  if write_succeeds w
  then (Ok true, set_file (Text (saved_text w)) (log OpenedForWriting w))
  else if open_ok (fs w)
  then (Ok false,
        log (Printed ErrorSaving)
            (set_file (Text (firstn (torn (fs w)) (saved_text w)))
                      (log OpenedForWriting w)))
  else (Ok false, log (Printed ErrorSaving) (log OpenedForWriting w)).
Proof.
  unfold save_tasks, write_succeeds, saved_text, try_except, bind,
    get_tasks, write_file, ret, print.
  destruct (open_ok (fs w)); simpl; [|reflexivity].
  destruct (write_ok (fs w) && encodable (json_dumps (JArr (tasks w))));
    reflexivity.
Qed.

Lemma save_tasks_returns (w : world) :
  exists b w', save_tasks w = (Ok b, w').
Proof.
  rewrite save_tasks_eq.
  destruct (write_succeeds w); [eauto|].
  destruct (open_ok (fs w)); eauto.
Qed.

Lemma save_tasks_keeps_tasks (w : world) :
  tasks (snd (save_tasks w)) = tasks w.
Proof.
  rewrite save_tasks_eq.
  destruct (write_succeeds w); [reflexivity|].
  destruct (open_ok (fs w)); reflexivity.
Qed.

Lemma save_tasks_true (w w' : world) :
  save_tasks w = (Ok true, w') ->
  w' = set_file (Text (saved_text w)) (log OpenedForWriting w).
Proof.
  rewrite save_tasks_eq.
  destruct (write_succeeds w); [congruence|].
  destruct (open_ok (fs w)); congruence.
Qed.

Lemma save_tasks_opens (w : world) :
  exists evs, trace (snd (save_tasks w)) = evs ++ OpenedForWriting :: trace w.
Proof.
  rewrite save_tasks_eq.
  destruct (write_succeeds w); [exists []; reflexivity|].
  destruct (open_ok (fs w)); exists [Printed ErrorSaving]; reflexivity.
Qed.

(* ===================================================================== *)
(** * Rejected requests *)
(* ===================================================================== *)

Lemma in_range_false (k : Z) (l : list json) :
  (k < 1 \/ Z.of_nat (length l) < k)%Z -> in_range k l = false.
Proof.
  unfold in_range. intros H.
  destruct (Z.leb_spec 1 k), (Z.leb_spec k (Z.of_nat (length l)));
    simpl; try reflexivity; lia.
Qed.

Lemma in_range_true (k : Z) (l : list json) :
  (1 <= k <= Z.of_nat (length l))%Z -> in_range k l = true.
Proof.
  unfold in_range. intros H.
  destruct (Z.leb_spec 1 k), (Z.leb_spec k (Z.of_nat (length l)));
    simpl; try reflexivity; lia.
Qed.

(** What an index-bearing operation does to the world when it rejects
    its index: it prints the range and nothing else. *)
Definition rejected_index (w : world) : world :=
  log (Printed (InvalidTaskNumber (length (tasks w)))) w.

(** C5.  For a list of any size N and an index outside 1..N (so for 0 and
    for N+1), [remove_task], [mark_complete], [mark_incomplete] and
    [edit_task] return [False] after printing the validation message
    "Invalid task number! Please enter a number between 1 and N"; the
    list and the file are as before and the file was not opened for
    writing: the message is the only new event of the trace. *)
Theorem out_of_range_index_is_rejected :
  forall (w : world) (k : Z) (d : pystr),
    (k < 1 \/ Z.of_nat (length (tasks w)) < k)%Z ->
    remove_task k w = (Ok false, rejected_index w) /\
    mark_complete k w = (Ok false, rejected_index w) /\
    mark_incomplete k w = (Ok false, rejected_index w) /\
    edit_task k d w = (Ok false, rejected_index w) /\
    tasks (rejected_index w) = tasks w /\
    file (rejected_index w) = file w /\
    trace (rejected_index w)
    = Printed (InvalidTaskNumber (length (tasks w))) :: trace w.
Proof.
  intros w k d H.
  pose proof (in_range_false k (tasks w) H) as R.
  unfold remove_task, mark_complete, mark_incomplete, mark, edit_task,
    try_except, bind, get_tasks, invalid_index.
  rewrite R. simpl.
  repeat split; reflexivity.
Qed.

Definition empty_world : world :=
  {| tasks := []; file := Absent;
     fs := {| open_ok := true; write_ok := true; torn := 0 |};
     now := str "2024-05-01 10:00:00"; stdin := []; trace := [] |}.

Lemma out_of_range_index_is_rejected_witness :
  remove_task 0 empty_world = (Ok false, rejected_index empty_world) /\
  mark_complete 1 empty_world = (Ok false, rejected_index empty_world).
Proof.
  split.
  - apply (out_of_range_index_is_rejected empty_world 0 []). simpl. lia.
  - apply (out_of_range_index_is_rejected empty_world 1 []). simpl. lia.
Defined.

(** C6.  [add_task] with a description that is empty once stripped, and
    [edit_task] at a valid index with such a description, return [False]
    after printing "Task description cannot be empty!"; the list and the
    file are as before and the file was not opened for writing: the
    message is the only new event of the trace. *)
Theorem empty_description_is_rejected :
  forall (w : world) (d : pystr),
    strip d = [] ->
    let w' := log (Printed EmptyDescription) w in
    add_task d w = (Ok false, w') /\
    (forall i : Z,
        (1 <= i <= Z.of_nat (length (tasks w)))%Z ->
        edit_task i d w = (Ok false, w')) /\
    tasks w' = tasks w /\ file w' = file w /\
    trace w' = Printed EmptyDescription :: trace w.
Proof.
  intros w d E w'. subst w'.
  repeat split.
  - unfold add_task. rewrite E. reflexivity.
  - intros i Hi.
    unfold edit_task, try_except, bind, get_tasks.
    rewrite (in_range_true i (tasks w) Hi), E. reflexivity.
Qed.

Lemma empty_description_is_rejected_witness :
  add_task (str "   ") empty_world
  = (Ok false, log (Printed EmptyDescription) empty_world).
Proof.
  apply (empty_description_is_rejected empty_world (str "   ")).
  reflexivity.
Defined.

(* ===================================================================== *)
(** * Removing a task *)
(* ===================================================================== *)

(** The record at a 1-based position of the list, if there is one. *)
Definition at_position (l : list json) (p : Z) : option json :=
  if (1 <=? p)%Z then nth_error l (Z.to_nat (p - 1)) else None.

Lemma print_keeps_tasks (m : message) (w : world) :
  tasks (snd (print m w)) = tasks w.
Proof. reflexivity. Qed.

(** Whatever becomes of the save, [remove_task] at a valid index leaves
    the list without the element at that index. *)
Lemma remove_task_tasks (w : world) (k : Z) :
  (1 <= k <= Z.of_nat (length (tasks w)))%Z ->
  tasks (snd (remove_task k w)) = without (slot k) (tasks w).
Proof.
  intros H.
  unfold remove_task. run.
  rewrite (in_range_true k (tasks w) H). run.
  set (w1 := set_tasks (without (slot k) (tasks w)) w).
  pose proof (save_tasks_keeps_tasks w1) as K.
  destruct (save_tasks_returns w1) as (b & w2 & E).
  rewrite E in *. simpl in K.
  destruct b; run.
  - destruct (get_item (nth (slot k) (tasks w) JNull) k_task);
      simpl; exact K.
  - exact K.
Qed.

Lemma length_without (i : nat) (l : list json) :
  (i < length l)%nat -> length (without i l) = (length l - 1)%nat.
Proof.
  intros H. unfold without.
  rewrite length_app, length_firstn, length_skipn. lia.
Qed.

Lemma nth_error_without_before (i j : nat) (l : list json) :
  (j < i)%nat -> (i < length l)%nat ->
  nth_error (without i l) j = nth_error l j.
Proof.
  intros H1 H2. unfold without.
  rewrite nth_error_app1 by (rewrite length_firstn; lia).
  rewrite nth_error_firstn.
  destruct (Nat.ltb_spec j i); [reflexivity|lia].
Qed.

Lemma nth_error_without_after (i j : nat) (l : list json) :
  (i <= j)%nat -> (i < length l)%nat ->
  nth_error (without i l) j = nth_error l (S j).
Proof.
  intros H1 H2. unfold without.
  rewrite nth_error_app2 by (rewrite length_firstn; lia).
  rewrite length_firstn, nth_error_skipn.
  f_equal. lia.
Qed.

(** C7.  For a list of N tasks and a position k with 1 <= k <= N,
    [remove_task k] leaves N-1 tasks: the positions before k hold the
    records they held, and every position p from k on holds the record
    that was at p+1; so exactly the record of position k is gone and the
    positions are again 1..N-1 in the same order.  This is so whether or
    not the save that follows succeeds. *)
Theorem remove_task_renumbers :
  forall (w : world) (k : Z),
    (1 <= k <= Z.of_nat (length (tasks w)))%Z ->
    let l := tasks w in
    let l' := tasks (snd (remove_task k w)) in
    length l' = (length l - 1)%nat /\
    (forall p : Z, (1 <= p < k)%Z -> at_position l' p = at_position l p) /\
    (forall p : Z, (k <= p)%Z -> at_position l' p = at_position l (p + 1)).
Proof.
  intros w k H l l'. subst l l'.
  rewrite (remove_task_tasks w k H).
  assert (Hs : (slot k < length (tasks w))%nat) by (unfold slot; lia).
  split; [|split].
  - apply length_without; exact Hs.
  - intros p Hp. unfold at_position.
    destruct (Z.leb_spec 1 p); [|lia].
    apply nth_error_without_before; [unfold slot; lia|exact Hs].
  - intros p Hp. unfold at_position.
    destruct (Z.leb_spec 1 p); [|lia].
    destruct (Z.leb_spec 1 (p + 1)); [|lia].
    rewrite nth_error_without_after; [|unfold slot; lia|exact Hs].
    f_equal. lia.
Qed.

(** Three records, as [add_task] builds them. *)
Definition sample_tasks : list json :=
  [record (str "write report") true (str "2024-05-01 09:00:00");
   record (str "send email") false (str "2024-05-01 09:05:00");
   record (str "call bank") false (str "2024-05-01 09:10:00")].

Definition sample_world : world := set_tasks sample_tasks empty_world.

Lemma remove_task_renumbers_witness :
  length (tasks (snd (remove_task 2 sample_world))) = 2%nat /\
  at_position (tasks (snd (remove_task 2 sample_world))) 2
  = Some (record (str "call bank") false (str "2024-05-01 09:10:00")).
Proof.
  assert (H : (1 <= 2 <= Z.of_nat (length (tasks sample_world)))%Z)
    by (simpl; lia).
  destruct (remove_task_renumbers sample_world 2 H) as (L & _ & A).
  split.
  - exact L.
  - rewrite (A 2%Z) by lia. reflexivity.
Defined.

(* ===================================================================== *)
(** * Adding a task while the file cannot be written *)
(* ===================================================================== *)

(** C10.  When the description is not empty once stripped and the save
    inside [add_task] fails, [add_task] returns [False] and the new
    record (stripped description, not completed, current time stamp) is
    nevertheless the last element of the list in memory: the list is
    extended before the save and is not restored after the failure. *)
Theorem add_task_keeps_record_when_save_fails :
  forall (w : world) (d : pystr),
    strip d <> [] ->
    let appended := tasks w ++ [record (strip d) false (now w)] in
    fst (save_tasks (set_tasks appended w)) = Ok false ->
    fst (add_task d w) = Ok false /\
    tasks (snd (add_task d w)) = appended.
Proof.
  intros w d E appended F.
  unfold add_task.
  destruct (nonempty (strip d)) eqn:N;
    [|destruct (strip d); [congruence|discriminate]].
  cbn [negb]. run. fold appended.
  pose proof (save_tasks_keeps_tasks (set_tasks appended w)) as K.
  destruct (save_tasks (set_tasks appended w)) as [r w1].
  simpl in F, K. subst r. run.
  split; [reflexivity|exact K].
Qed.

Definition read_only_world : world :=
  {| tasks := sample_tasks; file := Text (str "[]");
     fs := {| open_ok := false; write_ok := true; torn := 0 |};
     now := str "2024-05-01 10:00:00"; stdin := []; trace := [] |}.

Lemma add_task_keeps_record_when_save_fails_witness :
  fst (add_task (str " buy milk ") read_only_world) = Ok false /\
  tasks (snd (add_task (str " buy milk ") read_only_world))
  = sample_tasks
    ++ [record (str "buy milk") false (str "2024-05-01 10:00:00")].
Proof.
  apply (add_task_keeps_record_when_save_fails read_only_world
           (str " buy milk ")).
  - discriminate.
  - reflexivity.
Defined.

(* ===================================================================== *)
(** * Lists of task records *)
(* ===================================================================== *)

(** A task record of the specification: description, completion flag and
    creation time stamp. *)
Record task := {
  description : pystr;
  completed : bool;
  created : pystr
}.

(** The dictionary the program keeps for a record. *)
Definition to_json (t : task) : json :=
  record (description t) (completed t) (created t).

(** A valid record has a stripped, non-empty description. *)
Definition valid (t : task) : Prop :=
  strip (description t) = description t /\ description t <> [].

(** [events] on top of the trace, latest first. *)
Definition log_all (events : list event) (w : world) : world :=
  {| tasks := tasks w; file := file w; fs := fs w; now := now w;
     stdin := stdin w; trace := events ++ trace w |}.

Lemma log_all_nil (w : world) : log_all [] w = w.
Proof. destruct w; reflexivity. Qed.

Lemma log_all_snoc (events : list event) (e : event) (w : world) :
  log_all (events ++ [e]) w = log_all events (log e w).
Proof.
  unfold log_all, log. simpl. rewrite <- app_assoc. reflexivity.
Qed.

Lemma is_completed_record (t : task) :
  is_completed (to_json t) = Some (completed t).
Proof. reflexivity. Qed.

Lemma select_completed_records (keep : bool) (L : list task) :
  select_completed keep (map to_json L)
  = Some (map to_json (filter (fun t => Bool.eqb (completed t) keep) L)).
Proof.
  induction L as [|t L IH]; [reflexivity|].
  cbn [map select_completed filter].
  rewrite is_completed_record, IH.
  destruct (Bool.eqb (completed t) keep); reflexivity.
Qed.

Lemma count_completed_records (L : list task) :
  count_completed (map to_json L)
  = Some (length (filter completed L)).
Proof.
  unfold count_completed. rewrite select_completed_records. simpl.
  rewrite length_map. do 2 f_equal.
  apply filter_ext. intros t. destruct (completed t); reflexivity.
Qed.

Lemma list_completed_records (L : list task) (w : world) :
  list_completed (map to_json L) w
  = (Ok tt,
     log_all (rev (map (fun t => Printed (CompletedItem (JStr (description t))))
                       L)) w).
Proof.
  revert w. induction L as [|t L IH]; intros w.
  - simpl. rewrite log_all_nil. reflexivity.
  - cbn [map list_completed rev]. run.
    change (get_item (to_json t) k_task) with (Some (JStr (description t))).
    run. rewrite IH, log_all_snoc. reflexivity.
Qed.

(* ===================================================================== *)
(** * Clearing the completed tasks *)
(* ===================================================================== *)

Definition pending (t : task) : bool := negb (completed t).

Lemma filter_pending (L : list task) :
  filter (fun t => Bool.eqb (completed t) false) L = filter pending L.
Proof.
  apply filter_ext. intros t. unfold pending.
  destruct (completed t); reflexivity.
Qed.

Lemma filter_completed (L : list task) :
  filter (fun t => Bool.eqb (completed t) true) L = filter completed L.
Proof.
  apply filter_ext. intros t. destruct (completed t); reflexivity.
Qed.

Lemma filter_completed_nil (L : list task) :
  existsb completed L = false -> filter completed L = [].
Proof.
  induction L as [|t L IH]; [reflexivity|].
  simpl. destruct (completed t); simpl; [discriminate|exact IH].
Qed.

Lemma filter_completed_cons (L : list task) :
  existsb completed L = true -> filter completed L <> [].
Proof.
  induction L as [|t L IH]; [discriminate|].
  simpl. destruct (completed t); simpl; [discriminate|exact IH].
Qed.

(** With nothing completed, [clear_completed] only prints its notice. *)
Lemma clear_completed_nothing (L : list task) (w : world) :
  tasks w = map to_json L ->
  existsb completed L = false ->
  clear_completed w = (Ok false, log (Printed NoCompletedToClear) w).
Proof.
  intros T E. unfold clear_completed. run.
  rewrite T, select_completed_records, filter_completed,
    (filter_completed_nil L E).
  reflexivity.
Qed.

(** With something completed and the answer [y] or [yes], the list in
    memory becomes the pending records, whatever becomes of the save. *)
Lemma clear_completed_confirmed (L : list task) (w : world)
      (answer : pystr) (rest : list pystr) :
  tasks w = map to_json L ->
  existsb completed L = true ->
  stdin w = answer :: rest ->
  is_yes answer = true ->
  tasks (snd (clear_completed w)) = map to_json (filter pending L).
Proof.
  intros T E I Y. unfold clear_completed. run.
  rewrite T, select_completed_records, filter_completed.
  pose proof (filter_completed_cons L E) as NE.
  destruct (filter completed L) as [|c cs] eqn:F; [congruence|].
  cbn [map]. rewrite <- (map_cons to_json c cs).
  rewrite list_completed_records.
  unfold input. cbn [stdin log log_all]. rewrite I. run. rewrite Y.
  run. rewrite select_completed_records, filter_pending.
  match goal with
  | |- context [save_tasks ?x] =>
      pose proof (save_tasks_keeps_tasks x) as K;
      destruct (save_tasks_returns x) as (b & w2 & S); rewrite S in *
  end.
  simpl in K. destruct b; exact K.
Qed.

(** C8.  For a list of task records: once the user has confirmed,
    [clear_completed] leaves exactly the records that are not completed,
    in their order (this holds whether or not the save succeeds); when no
    record is completed it prints "No completed tasks to clear!", raises
    nothing, asks nothing and changes neither the list nor the file (it
    returns [False]), so a second call right after the first does the
    same and the list is unchanged both times. *)
Theorem clear_completed_removes_completed :
  forall (L : list task) (w : world),
    tasks w = map to_json L ->
    (forall answer rest,
        existsb completed L = true ->
        stdin w = answer :: rest ->
        is_yes answer = true ->
        tasks (snd (clear_completed w)) = map to_json (filter pending L)) /\
    (existsb completed L = false ->
     let w1 := log (Printed NoCompletedToClear) w in
     let w2 := log (Printed NoCompletedToClear) w1 in
     clear_completed w = (Ok false, w1) /\
     clear_completed w1 = (Ok false, w2) /\
     tasks w1 = tasks w /\ tasks w2 = tasks w /\
     file w2 = file w /\ stdin w2 = stdin w).
Proof.
  intros L w T. split.
  - intros answer rest E I Y.
    exact (clear_completed_confirmed L w answer rest T E I Y).
  - intros E w1 w2. subst w1 w2.
    repeat split.
    + exact (clear_completed_nothing L w T E).
    + apply (clear_completed_nothing L); [exact T|exact E].
Qed.

Definition confirming_world : world :=
  set_stdin [str " Yes "] sample_world.

Definition pending_world : world :=
  set_tasks (map to_json
               [{| description := str "send email"; completed := false;
                   created := [] |}]) empty_world.

Lemma clear_completed_removes_completed_witness :
  tasks (snd (clear_completed confirming_world))
  = [record (str "send email") false (str "2024-05-01 09:05:00");
     record (str "call bank") false (str "2024-05-01 09:10:00")] /\
  clear_completed pending_world
  = (Ok false, log (Printed NoCompletedToClear) pending_world).
Proof.
  split.
  - refine (proj1 (clear_completed_removes_completed
             [{| description := str "write report"; completed := true;
                 created := str "2024-05-01 09:00:00" |};
              {| description := str "send email"; completed := false;
                 created := str "2024-05-01 09:05:00" |};
              {| description := str "call bank"; completed := false;
                 created := str "2024-05-01 09:10:00" |}]
             confirming_world eq_refl) (str " Yes ") [] _ _ _);
      reflexivity.
  - refine (proj1 (proj2 (clear_completed_removes_completed
             [{| description := str "send email"; completed := false;
                 created := [] |}]
             pending_world eq_refl) _)).
    reflexivity.
Defined.

(* ===================================================================== *)
(** * Statistics *)
(* ===================================================================== *)

(** What [get_task_stats] prints for a list of records. *)
Definition stats_message (L : list task) : message :=
  match L with
  | [] => NoTasksToAnalyze
  | _ :: _ =>
      let total := length L in
      let done := length (filter completed L) in
      Statistics total done (total - done) (completion_rate done total)
  end.

Lemma get_task_stats_eq (L : list task) (w : world) :
  tasks w = map to_json L ->
  get_task_stats w = (Ok tt, log (Printed (stats_message L)) w).
Proof.
  intros T. unfold get_task_stats. run. rewrite T.
  destruct L as [|t L]; [reflexivity|].
  rewrite count_completed_records. cbn [map]. run.
  cbv zeta. cbn [length stats_message]. rewrite length_map. reflexivity.
Qed.

(** The rate shown is within half a tenth of the exact [100 * done / total]:
    checked here by evaluation for every list of up to [bound] records. *)
Definition rate_is_close (done total : nat) : bool :=
  match PyFloat.nearest_tenths (percentage done total) with
  | Some (false, t) =>
      (Z.abs (2000 * Z.of_nat done - 2 * t * Z.of_nat total)
       <=? Z.of_nat total)%Z
  | _ => false
  end.

Definition rates_are_close (bound : nat) : bool :=
  forallb (fun total =>
             forallb (fun done => rate_is_close done total)
                     (seq 0 (S total)))
          (seq 1 bound).

Lemma rates_are_close_sound (bound done total : nat) :
  rates_are_close bound = true ->
  (0 < total <= bound)%nat -> (done <= total)%nat ->
  rate_is_close done total = true.
Proof.
  unfold rates_are_close. intros A Ht Hd.
  rewrite forallb_forall in A.
  assert (B : forallb (fun done => rate_is_close done total)
                      (seq 0 (S total)) = true)
    by (apply A; apply in_seq; lia).
  rewrite forallb_forall in B.
  apply B. apply in_seq. lia.
Qed.

Lemma rates_are_close_upto_64 : rates_are_close 64 = true.
Proof. vm_compute. reflexivity. Qed.

Lemma rate_close_upto_64 (done total : nat) :
  (0 < total <= 64)%nat -> (done <= total)%nat ->
  exists t : Z,
    PyFloat.nearest_tenths (percentage done total) = Some (false, t) /\
    (Z.abs (2000 * Z.of_nat done - 2 * t * Z.of_nat total)
     <= Z.of_nat total)%Z.
Proof.
  intros Ht Hd.
  pose proof (rates_are_close_sound 64 done total
                rates_are_close_upto_64 Ht Hd) as C.
  unfold rate_is_close in C.
  destruct (PyFloat.nearest_tenths (percentage done total))
    as [[[|] t]|]; try discriminate.
  exists t. split; [reflexivity|]. apply Z.leb_le. exact C.
Qed.

(** Rates as Python prints them, ties included: 1 of 16 is 6.25 and shows
    as 6.2; 3 of 16 is 18.75 and shows as 18.8; 1 of 2000 is the float
    just above 0.05 and shows as 0.1. *)
Example completion_rate_examples :
  completion_rate 1 3 = str "33.3" /\
  completion_rate 2 3 = str "66.7" /\
  completion_rate 1 16 = str "6.2" /\
  completion_rate 3 16 = str "18.8" /\
  completion_rate 1 2000 = str "0.1" /\
  completion_rate 0 4 = str "0.0" /\
  completion_rate 4 4 = str "100.0".
Proof. vm_compute. repeat split. Qed.

(** C9, as the code has it.  [get_task_stats] only prints: it returns
    normally with the list, the file and the input as they were.  For a
    list of T > 0 records with C completed it prints total T, completed
    C, pending T - C and the rate (C / T) * 100, a binary64 float, in the
    [.1f] format, that is with one decimal.  For an empty list it prints
    "No tasks to analyze!" in place of the statistics: no total and no
    rate are shown, and nothing is divided. *)
Theorem get_task_stats_reports :
  forall (L : list task) (w : world),
    tasks w = map to_json L ->
    let w' := log (Printed (stats_message L)) w in
    get_task_stats w = (Ok tt, w') /\
    tasks w' = tasks w /\ file w' = file w /\ stdin w' = stdin w /\
    trace w' = Printed (stats_message L) :: trace w /\
    (L = [] -> stats_message L = NoTasksToAnalyze) /\
    (L <> [] ->
     let T := length L in
     let C := length (filter completed L) in
     stats_message L
     = Statistics T C (T - C)
                  (PyFloat.format_1f (percentage C T))).
Proof.
  intros L w T w'. subst w'.
  split; [exact (get_task_stats_eq L w T)|].
  repeat split.
  - intros ->. reflexivity.
  - intros NE. destruct L as [|t L]; [congruence|]. reflexivity.
Qed.

Lemma get_task_stats_reports_witness :
  get_task_stats sample_world
  = (Ok tt,
     log (Printed (Statistics 3 1 2 (str "33.3"))) sample_world).
Proof.
  exact (proj1 (get_task_stats_reports
    [{| description := str "write report"; completed := true;
        created := str "2024-05-01 09:00:00" |};
     {| description := str "send email"; completed := false;
        created := str "2024-05-01 09:05:00" |};
     {| description := str "call bank"; completed := false;
        created := str "2024-05-01 09:10:00" |}]
    sample_world eq_refl)).
Defined.

(** C9 as the specification words it fails for the empty list: there
    [get_task_stats] reports no rate at all (so not a rate of 0); its
    only output is the notice. *)
Lemma get_task_stats_empty_list_shows_no_rate :
  tasks empty_world = [] /\
  trace (snd (get_task_stats empty_world)) = [Printed NoTasksToAnalyze] /\
  ~ (exists total done pend rate,
        In (Printed (Statistics total done pend rate))
           (trace (snd (get_task_stats empty_world)))).
Proof.
  split; [reflexivity|]. split; [reflexivity|].
  intros (total & done & pend & rate & H).
  simpl in H. destruct H as [H|[]]. discriminate.
Qed.

(* ===================================================================== *)
(** * Statements that only talk to the console *)
(* ===================================================================== *)

(** From [w] to [w'] nothing but console traffic happened: the list, the
    file and the file system are the same and the file was not opened for
    writing. *)
Definition console_only (w w' : world) : Prop :=
  tasks w' = tasks w /\ file w' = file w /\ fs w' = fs w /\
  now w' = now w /\
  exists events,
    trace w' = events ++ trace w /\ ~ In OpenedForWriting events.

(** A statement that never does more than that. *)
Definition quiet {A} (c : M A) : Prop :=
  forall w, console_only w (snd (c w)).

Lemma console_only_refl (w : world) : console_only w w.
Proof.
  repeat split. exists []. split; [reflexivity|intros []].
Qed.

Lemma console_only_trans (w1 w2 w3 : world) :
  console_only w1 w2 -> console_only w2 w3 -> console_only w1 w3.
Proof.
  intros (T1 & F1 & D1 & N1 & e1 & E1 & O1)
         (T2 & F2 & D2 & N2 & e2 & E2 & O2).
  repeat split; try congruence.
  exists (e2 ++ e1). split.
  - rewrite E2, E1, app_assoc. reflexivity.
  - intros H. apply in_app_or in H. tauto.
Qed.

Lemma console_only_log (e : event) (w : world) :
  e <> OpenedForWriting -> console_only w (log e w).
Proof.
  intros H. repeat split. exists [e]. split; [reflexivity|].
  intros [G|[]]. congruence.
Qed.

Lemma quiet_ret {A} (a : A) : quiet (ret a).
Proof. intros w. apply console_only_refl. Qed.

Lemma quiet_raise {A} (e : exn) : quiet (@raise A e).
Proof. intros w. apply console_only_refl. Qed.

Lemma quiet_lift {A} (o : option A) (e : exn) : quiet (lift o e).
Proof. destruct o; [apply quiet_ret|apply quiet_raise]. Qed.

Lemma quiet_get_tasks : quiet get_tasks.
Proof. intros w. apply console_only_refl. Qed.

Lemma quiet_print (m : message) : quiet (print m).
Proof. intros w. apply console_only_log. discriminate. Qed.

Lemma quiet_input (p : prompt) : quiet (input p).
Proof.
  intros w. unfold input. destruct (stdin w) as [|line rest]; simpl.
  - apply console_only_log. discriminate.
  - repeat split. exists [Asked p]. split; [reflexivity|].
    intros [G|[]]. discriminate.
Qed.

Lemma quiet_bind {A B} (c : M A) (k : A -> M B) :
  quiet c -> (forall a, quiet (k a)) -> quiet (bind c k).
Proof.
  intros Hc Hk w. unfold bind.
  specialize (Hc w). destruct (c w) as [[a|e] w1]; simpl in *.
  - eapply console_only_trans; [exact Hc|apply Hk].
  - exact Hc.
Qed.

Lemma quiet_if {A} (b : bool) (c1 c2 : M A) :
  quiet c1 -> quiet c2 -> quiet (if b then c1 else c2).
Proof. destruct b; auto. Qed.

Create HintDb quiet.
#[local] Hint Resolve quiet_ret quiet_raise quiet_lift quiet_get_tasks
  quiet_print quiet_input quiet_if : quiet.

Ltac quiet_steps :=
  repeat (first [ apply quiet_bind; [|intros ?]
                | solve [auto with quiet] ]).

Lemma quiet_row_text (task : json) : quiet (row_text task).
Proof.
  unfold row_text. quiet_steps.
Qed.

Lemma quiet_view_rows (show_completed : bool) (l : list json) (i : nat) :
  quiet (view_rows show_completed i l).
Proof.
  revert i. induction l as [|t l IH]; intros i; simpl.
  - apply quiet_ret.
  - apply quiet_bind; [auto with quiet|intros c].
    apply quiet_bind; [|intros _; apply IH].
    apply quiet_if; [|auto with quiet].
    apply quiet_bind; [apply quiet_row_text|intros d; auto with quiet].
Qed.

Lemma quiet_view_tasks (show_completed : bool) :
  quiet (view_tasks show_completed).
Proof.
  unfold view_tasks. apply quiet_bind; [auto with quiet|intros l].
  destruct l as [|t l]; [auto with quiet|].
  apply quiet_bind; [auto with quiet|intros n].
  apply quiet_bind; [auto with quiet|intros _].
  apply quiet_bind; [apply quiet_view_rows|intros _; auto with quiet].
Qed.

Lemma number_loop_trace (len : nat) (lines : list pystr) (tr : list event) :
  exists events,
    snd (number_loop len lines tr) = events ++ tr /\
    ~ In OpenedForWriting events.
Proof.
  revert tr. induction lines as [|line rest IH]; intros tr.
  - exists [Asked AskTaskNumber]. split; [reflexivity|].
    intros [G|[]]. discriminate.
  - simpl.
    assert (Step : forall e1,
               e1 <> OpenedForWriting ->
               exists events,
                 snd (number_loop len rest (e1 :: Asked AskTaskNumber :: tr))
                 = events ++ tr /\ ~ In OpenedForWriting events).
    { intros e1 N1.
      destruct (IH (e1 :: Asked AskTaskNumber :: tr)) as (ev & E & O).
      exists (ev ++ [e1; Asked AskTaskNumber]). split.
      - rewrite E, <- app_assoc. reflexivity.
      - intros H. apply in_app_or in H. destruct H as [H|[H|[H|[]]]];
          [tauto|congruence|discriminate]. }
    destruct (py_int (strip line)) as [n|].
    + destruct ((1 <=? n)%Z && (n <=? Z.of_nat len)%Z).
      * exists [Asked AskTaskNumber]. split; [reflexivity|].
        intros [G|[]]. discriminate.
      * apply Step. discriminate.
    + apply Step. discriminate.
Qed.

Lemma quiet_get_task_number : quiet get_task_number.
Proof.
  unfold get_task_number. apply quiet_bind; [auto with quiet|intros l].
  destruct l as [|t l]; [quiet_steps|].
  intros w.
  destruct (number_loop_trace (length (t :: l)) (stdin w) (trace w))
    as (ev & E & O).
  destruct (number_loop (length (t :: l)) (stdin w) (trace w))
    as [[r rest] tr].
  simpl in E. subst tr.
  repeat split. exists ev. split; [reflexivity|exact O].
Qed.

Lemma quiet_task_field (n : Z) (key : pystr) : quiet (task_field n key).
Proof.
  unfold task_field, task_at. quiet_steps.
Qed.

(* ===================================================================== *)
(** * Confirmation before deleting *)
(* ===================================================================== *)

Lemma pystr_eqb_eq (a b : pystr) : pystr_eqb a b = true <-> a = b.
Proof.
  unfold pystr_eqb. destruct (pystr_eq_dec a b); split;
    congruence || discriminate.
Qed.

Lemma is_yes_iff (answer : pystr) :
  is_yes answer = true <->
  lower (strip answer) = str "y" \/ lower (strip answer) = str "yes".
Proof.
  unfold is_yes. rewrite orb_true_iff, !pystr_eqb_eq. reflexivity.
Qed.

(** The world in which [clear_completed] has listed the completed records
    of [L] and taken the answer to its question. *)
Definition asked_to_clear (L : list task) (rest : list pystr) (w : world)
  : world :=
  let done := filter completed L in
  set_stdin rest
    (log (Asked (AskConfirmClear (length done)))
       (log_all
          (rev (map (fun t => Printed (CompletedItem (JStr (description t))))
                    done))
          (log (Printed (FoundCompleted (length done))) w))).

(** [clear_completed] on a list of records of which some are completed,
    with an answer waiting on the input. *)
Lemma clear_completed_eq (L : list task) (w : world)
      (answer : pystr) (rest : list pystr) :
  tasks w = map to_json L ->
  existsb completed L = true ->
  stdin w = answer :: rest ->
  clear_completed w =
  if is_yes answer then
    let (r, w3) :=
      save_tasks (set_tasks (map to_json (filter pending L))
                            (asked_to_clear L rest w)) in
    match r with
    | Ok true =>
        (Ok true,
         log (Printed (CompletedCleared (length (filter completed L)))) w3)
    | Ok false => (Ok false, log (Printed FailedToSaveChanges) w3)
    | Raised e => (Raised e, w3)
    end
  else (Ok false, log (Printed OperationCancelled) (asked_to_clear L rest w)).
Proof.
  intros T E I. unfold clear_completed, asked_to_clear. run.
  rewrite T, select_completed_records, filter_completed.
  pose proof (filter_completed_cons L E) as NE.
  destruct (filter completed L) as [|c cs] eqn:F; [congruence|].
  cbn [map]. rewrite <- (map_cons to_json c cs).
  rewrite list_completed_records.
  unfold input.
  change (stdin (log_all ?a (log ?b w))) with (stdin w).
  rewrite I. run. rewrite !length_map. cbn [map].
  destruct (is_yes answer); [|reflexivity].
  run. rewrite select_completed_records, filter_pending.
  match goal with
  | |- context [save_tasks ?x] => destruct (save_tasks x) as [[[|]|e] w3]
  end; reflexivity.
Qed.

Lemma console_only_asked_to_clear (L : list task) (rest : list pystr)
      (w : world) :
  tasks (asked_to_clear L rest w) = tasks w /\
  file (asked_to_clear L rest w) = file w /\
  fs (asked_to_clear L rest w) = fs w /\
  now (asked_to_clear L rest w) = now w /\
  stdin (asked_to_clear L rest w) = rest /\
  exists events,
    trace (asked_to_clear L rest w) = events ++ trace w /\
    ~ In OpenedForWriting events /\
    In (Asked (AskConfirmClear (length (filter completed L)))) events.
Proof.
  repeat split.
  unfold asked_to_clear. cbn [trace set_stdin log log_all].
  set (items := rev (map _ (filter completed L))).
  exists (Asked (AskConfirmClear (length (filter completed L)))
            :: items ++ [Printed (FoundCompleted
                                    (length (filter completed L)))]).
  split; [|split].
  - simpl. rewrite <- app_assoc. reflexivity.
  - intros [H|H]; [discriminate|].
    apply in_app_or in H. destruct H as [H|[H|[]]]; [|discriminate].
    subst items. apply in_rev in H. apply in_map_iff in H.
    destruct H as (t & H & _). discriminate.
  - left. reflexivity.
Qed.

(** [choose_remove] once the list was shown and a task number obtained,
    with an answer waiting on the input. *)
Lemma choose_remove_eq (w w2 : world) (n : Z) (t : json)
      (answer : pystr) (rest : list pystr) :
  bind (view_tasks true) (fun _ => get_task_number) w = (Ok (Some n), w2) ->
  get_item (nth (slot n) (tasks w2) JNull) k_task = Some t ->
  stdin w2 = answer :: rest ->
  choose_remove w =
  let w3 := set_stdin rest (log (Asked (AskConfirmRemove t)) w2) in
  if is_yes answer
  then bind (remove_task n) (fun _ => ret tt) w3
  else (Ok tt, log (Printed RemovalCancelled) w3).
Proof.
  intros V G I. unfold choose_remove. unfold bind at 1 in V.
  unfold bind at 1. destruct (view_tasks true w) as [[[]|e] w1];
    [|discriminate].
  unfold bind at 1. rewrite V.
  unfold task_field, task_at. run. rewrite G. run.
  unfold input. rewrite I. cbv iota beta.
  destruct (is_yes answer); reflexivity.
Qed.

(** C3, as the code has it.  An answer to a confirmation question counts
    as yes exactly when, stripped and put in lower case, it is "y" or
    "yes"; the empty answer does not.  For Remove, [main] asks after the
    list was shown and a task number obtained: on yes it calls
    [remove_task], on any other answer it prints "Task removal cancelled."
    and the list and the file are untouched (the file is not opened for
    writing).  For ClearCompleted the question is asked by the store
    operation [clear_completed] itself, after it has listed the completed
    records, and [main] adds nothing to it: on yes the completed records
    are dropped, on any other answer [clear_completed] returns [False] and
    the list and the file are untouched. *)
Theorem confirmation_is_y_or_yes :
  forall answer : pystr,
    (is_yes answer = true <->
     lower (strip answer) = str "y" \/ lower (strip answer) = str "yes") /\
    is_yes [] = false /\
    (forall (w w2 : world) (n : Z) (t : json) (rest : list pystr),
        bind (view_tasks true) (fun _ => get_task_number) w
        = (Ok (Some n), w2) ->
        get_item (nth (slot n) (tasks w2) JNull) k_task = Some t ->
        stdin w2 = answer :: rest ->
        let w3 := set_stdin rest (log (Asked (AskConfirmRemove t)) w2) in
        (is_yes answer = true ->
         choose_remove w = bind (remove_task n) (fun _ => ret tt) w3) /\
        (is_yes answer = false ->
         choose_remove w = (Ok tt, log (Printed RemovalCancelled) w3) /\
         console_only w (snd (choose_remove w)))) /\
    (forall (L : list task) (w : world) (rest : list pystr),
        tasks w = map to_json L ->
        existsb completed L = true ->
        stdin w = answer :: rest ->
        In (Asked (AskConfirmClear (length (filter completed L))))
           (trace (snd (clear_completed w))) /\
        snd (choose_clear w) = snd (clear_completed w) /\
        (is_yes answer = true ->
         tasks (snd (clear_completed w)) = map to_json (filter pending L)) /\
        (is_yes answer = false ->
         fst (clear_completed w) = Ok false /\
         console_only w (snd (clear_completed w)))).
Proof.
  intros answer. split; [apply is_yes_iff|]. split; [reflexivity|]. split.
  - intros w w2 n t rest V G I w3.
    pose proof (choose_remove_eq w w2 n t answer rest V G I) as E.
    cbv zeta in E. fold w3 in E.
    split; intros Y; rewrite Y in E; [exact E|].
    split; [exact E|]. rewrite E. cbn [snd].
    assert (Q : quiet (bind (view_tasks true) (fun _ => get_task_number))).
    { apply quiet_bind; [apply quiet_view_tasks|].
      intros _. apply quiet_get_task_number. }
    specialize (Q w). rewrite V in Q. cbn [snd] in Q.
    eapply console_only_trans; [exact Q|].
    destruct Q as (T2 & F2 & D2 & N2 & _).
    repeat split.
    exists [Printed RemovalCancelled; Asked (AskConfirmRemove t)].
    split; [reflexivity|].
    intros [H|[H|[]]]; discriminate.
  - intros L w rest T E I.
    pose proof (clear_completed_eq L w answer rest T E I) as C.
    destruct (console_only_asked_to_clear L rest w)
      as (T1 & F1 & D1 & N1 & I1 & ev & E1 & O1 & A1).
    split; [|split; [|split]].
    + rewrite C. destruct (is_yes answer).
      * match goal with
        | |- context [save_tasks ?x] =>
            destruct (save_tasks_opens x) as (ev2 & S2);
            destruct (save_tasks_returns x) as (b & w3 & S); rewrite S in *
        end.
        cbn [snd] in S2.
        assert (In (Asked (AskConfirmClear (length (filter completed L))))
                   (trace w3)).
        { rewrite S2. apply in_or_app. right. right.
          cbn [trace set_tasks]. rewrite E1. apply in_or_app. left.
          exact A1. }
        destruct b; right; assumption.
      * cbn [snd trace log]. right. rewrite E1. apply in_or_app. left.
        exact A1.
    + unfold choose_clear, bind.
      destruct (clear_completed w) as [[b|e] w']; reflexivity.
    + intros Y. exact (clear_completed_confirmed L w answer rest T E I Y).
    + intros Y. rewrite C, Y. split; [reflexivity|]. cbn [snd].
      repeat split; try assumption.
      exists (Printed OperationCancelled :: ev). split.
      * cbn [trace log]. rewrite E1. reflexivity.
      * intros [H|H]; [discriminate|tauto].
Qed.

Definition removing_world : world :=
  set_stdin [str "2"; str "no"] sample_world.

Lemma confirmation_is_y_or_yes_witness :
  tasks (snd (choose_remove removing_world)) = sample_tasks /\
  file (snd (choose_remove removing_world)) = Absent /\
  tasks (snd (clear_completed confirming_world))
  = [record (str "send email") false (str "2024-05-01 09:05:00");
     record (str "call bank") false (str "2024-05-01 09:10:00")].
Proof.
  destruct (confirmation_is_y_or_yes (str "no")) as (_ & _ & R & _).
  destruct (R removing_world
              (snd (bind (view_tasks true) (fun _ => get_task_number)
                         removing_world))
              2%Z (JStr (str "send email")) []
              eq_refl eq_refl eq_refl) as (_ & N).
  destruct (N eq_refl) as (_ & T & F & _).
  destruct (confirmation_is_y_or_yes (str " Yes ")) as (_ & _ & _ & C).
  destruct (C [{| description := str "write report"; completed := true;
                  created := str "2024-05-01 09:00:00" |};
               {| description := str "send email"; completed := false;
                  created := str "2024-05-01 09:05:00" |};
               {| description := str "call bank"; completed := false;
                  created := str "2024-05-01 09:10:00" |}]
              confirming_world [] eq_refl eq_refl eq_refl)
    as (_ & _ & Y & _).
  split; [exact T|]. split; [exact F|]. exact (Y eq_refl).
Defined.

(** C3 as the specification words it fails in its last sentence: the
    store operation does prompt.  With one completed record and the
    answer "n" waiting, [clear_completed] asks its question, takes the
    answer from the input and cancels. *)
Lemma clear_completed_asks_itself :
  let w := set_stdin [str "n"] sample_world in
  fst (clear_completed w) = Ok false /\
  stdin w = [str "n"] /\
  stdin (snd (clear_completed w)) = [] /\
  trace (snd (clear_completed w))
  = [Printed OperationCancelled;
     Asked (AskConfirmClear 1);
     Printed (CompletedItem (JStr (str "write report")));
     Printed (FoundCompleted 1)] /\
  ~ (forall w0 : world, stdin (snd (clear_completed w0)) = stdin w0).
Proof.
  cbv zeta. repeat split.
  intros H. specialize (H (set_stdin [str "n"] sample_world)).
  discriminate H.
Qed.

(* ===================================================================== *)
(** * The decoder never runs out of fuel *)
(* ===================================================================== *)

Section DecoderFuel.

Local Open Scope nat_scope.

Lemma skip_ws_length (s : pystr) : length (skip_ws s) <= length s.
Proof.
  induction s as [|c r IH]; simpl; [lia|].
  destruct (is_ws c); simpl; lia.
Qed.

Lemma consed_length (c : char) (o : option (pystr * pystr))
      (t r : pystr) (n : nat) :
  consed c o = Some (t, r) ->
  (forall t' r', o = Some (t', r') -> length r' < n) ->
  length r < n.
Proof.
  destruct o as [[t' r']|]; simpl; [|discriminate].
  intros E H. inversion E; subst. eapply H. reflexivity.
Qed.

(** A string literal is never empty: the closing quote at least is
    read. *)
Lemma scanstring_length (s t r : pystr) :
  scanstring s = Some (t, r) -> length r < length s.
Proof.
  remember (length s) as n eqn:L.
  assert (B : length s <= n) by lia. clear L.
  revert s t r B.
  induction n as [|n IH]; intros s t r B.
  - destruct s; [discriminate|simpl in B; lia].
  - destruct s as [|c s1]; [discriminate|]. simpl in B. simpl.
    assert (Rec : forall (x : char) (s' : pystr) t0 r0,
               length s' <= n ->
               consed x (scanstring s') = Some (t0, r0) ->
               length r0 < S n).
    { intros x s' t0 r0 Ls E.
      eapply consed_length; [exact E|].
      intros t' r' E'. apply IH in E'; lia. }
    destruct (c =? 34)%N.
    { intros E. inversion E; subst. lia. }
    destruct (c =? 92)%N.
    + destruct s1 as [|e r1]; [discriminate|].
      destruct (e =? 117)%N.
      * destruct r1 as [|h1 [|h2 [|h3 [|h4 r2]]]]; try discriminate.
        simpl in B.
        destruct (hex4 h1 h2 h3 h4) as [uni|]; [|discriminate].
        destruct (is_high_surrogate uni).
        -- destruct r2 as [|b [|u r3]];
             try (intros E; apply Rec in E; simpl in *; lia).
           destruct ((b =? 92)%N && (u =? 117)%N).
           ++ destruct r3 as [|k1 [|k2 [|k3 [|k4 r4]]]]; try discriminate.
              simpl in B.
              destruct (hex4 k1 k2 k3 k4) as [uni2|]; [|discriminate].
              destruct (is_low_surrogate uni2);
                intros E; apply Rec in E; simpl in *; lia.
           ++ intros E; apply Rec in E; simpl in *; lia.
        -- intros E; apply Rec in E; simpl in *; lia.
      * destruct (unescape e); [|discriminate].
        simpl in B. intros E; apply Rec in E; simpl in *; lia.
    + destruct (c <? 32)%N; [discriminate|].
      intros E; apply Rec in E; lia.
Qed.

Lemma after_prefix_length (lit s r : pystr) :
  after_prefix lit s = Some r -> length r <= length s.
Proof.
  revert s. induction lit as [|a lit IH]; intros s; simpl.
  - intros E. inversion E. lia.
  - destruct s as [|b s']; [discriminate|].
    destruct (a =? b)%N; [|discriminate].
    intros E. apply IH in E. simpl. lia.
Qed.

Lemma span_digits_length (s ds r : pystr) :
  span_digits s = (ds, r) -> length r <= length s.
Proof.
  revert ds r. induction s as [|c s IH]; intros ds r; simpl.
  - intros E. inversion E. simpl. lia.
  - destruct (isdigit c).
    + destruct (span_digits s) as [ds' r'] eqn:E'.
      intros E. inversion E; subst. specialize (IH ds' r eq_refl). lia.
    + intros E. inversion E; subst. simpl. lia.
Qed.

Lemma match_integer_length (s lit r : pystr) :
  match_integer s = Some (lit, r) -> length r <= length s.
Proof.
  unfold match_integer.
  assert (Body : forall (sign s1 : pystr),
             length s1 <= length s ->
             match s1 with
             | [] => None
             | d :: r0 =>
                 if (d =? 48)%N then Some (sign ++ [48%N], r0)
                 else if isdigit d
                      then let '(ds, r') := span_digits r0 in
                           Some (sign ++ d :: ds, r')
                      else None
             end = Some (lit, r) ->
             length r <= length s).
  { intros sign s1 L1. destruct s1 as [|d r0]; [discriminate|].
    simpl in L1.
    destruct (d =? 48)%N; [intros E; inversion E; subst; lia|].
    destruct (isdigit d); [|discriminate].
    destruct (span_digits r0) as [ds r'] eqn:Sp.
    apply span_digits_length in Sp.
    intros E; inversion E; subst; lia. }
  destruct s as [|c s']; [discriminate|].
  destruct (c =? 45)%N;
    [apply (Body [45%N] s')|apply (Body [] (c :: s'))]; simpl; lia.
Qed.

Lemma match_frac_length (s f r : pystr) :
  match_frac s = (f, r) -> length r <= length s.
Proof.
  unfold match_frac. destruct s as [|c s'].
  - intros E; inversion E; simpl; lia.
  - destruct (c =? 46)%N.
    + destruct (span_digits s') as [ds r'] eqn:Sp.
      apply span_digits_length in Sp.
      destruct ds; intros E; inversion E; subst; simpl; lia.
    + intros E; inversion E; subst; simpl; lia.
Qed.

Lemma match_exp_length (s x r : pystr) :
  match_exp s = (x, r) -> length r <= length s.
Proof.
  unfold match_exp. destruct s as [|c s'].
  - intros E; inversion E; simpl; lia.
  - destruct ((c =? 101)%N || (c =? 69)%N).
    + assert (Body : forall sg r1,
                 length r1 <= length s' ->
                 match span_digits r1 with
                 | ([], _) => ([], c :: s')
                 | (ds, r2) => (c :: sg ++ ds, r2)
                 end = (x, r) ->
                 length r <= length (c :: s')).
      { intros sg r1 L1.
        destruct (span_digits r1) as [ds r2] eqn:Sp.
        apply span_digits_length in Sp.
        destruct ds; intros E; inversion E; subst; simpl; lia. }
      destruct s' as [|c' r'].
      * apply (Body [] []). simpl; lia.
      * destruct ((c' =? 45)%N || (c' =? 43)%N);
          [apply (Body [c'] r')|apply (Body [] (c' :: r'))]; simpl; lia.
    + intros E; inversion E; subst; simpl; lia.
Qed.

Lemma match_number_length (s : pystr) (v : json) (r : pystr) :
  match_number s = Some (v, r) -> length r <= length s.
Proof.
  unfold match_number.
  destruct (match_integer s) as [[lit r0]|] eqn:I; [|discriminate].
  apply match_integer_length in I.
  destruct (match_frac r0) as [f r1] eqn:F. apply match_frac_length in F.
  destruct (match_exp r1) as [x r2] eqn:X. apply match_exp_length in X.
  destruct (nonempty f || nonempty x); intros E; inversion E; subst; lia.
Qed.

Lemma scan_atom_length (s : pystr) (v : json) (r : pystr) :
  scan_atom s = Scan v r -> length r <= length s.
Proof.
  unfold scan_atom.
  repeat match goal with
  | |- context [after_prefix ?lit s] =>
      let E := fresh "E" in
      destruct (after_prefix lit s) eqn:E;
      [apply after_prefix_length in E; intros H; inversion H; subst; exact E|]
  | |- context [match_number s] =>
      let E := fresh "E" in
      destruct (match_number s) as [[? ?]|] eqn:E;
      [apply match_number_length in E; intros H; inversion H; subst; exact E|]
  end.
  discriminate.
Qed.

(** What is left after a value is never longer than what was given. *)
Definition rest_bounded {A} (scan : pystr -> scanned A) : Prop :=
  forall s a r, scan s = Scan a r -> length r <= length s.

Lemma scan_rest_bounded (fuel : nat) :
  rest_bounded (scan_once fuel) /\
  rest_bounded (parse_array fuel) /\
  rest_bounded (array_items fuel) /\
  rest_bounded (parse_object fuel) /\
  rest_bounded (object_members fuel).
Proof.
  induction fuel as [|f (Hs & Ha & Hi & Ho & Hm)].
  - repeat split; intros s a r; simpl; discriminate.
  - repeat split; intros s a r; simpl.
    + destruct s as [|c s']; [discriminate|].
      destruct (c =? 34)%N.
      { destruct (scanstring s') as [[t r']|] eqn:E; [|discriminate].
        apply scanstring_length in E.
        intros H; inversion H; subst; simpl; lia. }
      destruct (c =? 123)%N.
      { intros H. apply Ho in H. simpl; lia. }
      destruct (c =? 91)%N.
      { intros H. apply Ha in H. simpl; lia. }
      apply scan_atom_length.
    + pose proof (skip_ws_length s) as W.
      destruct (skip_ws s) as [|c s']; [discriminate|]. simpl in W.
      destruct (c =? 93)%N; [intros H; inversion H; subst; lia|].
      destruct (array_items f (c :: s')) as [vs r'| |] eqn:E;
        try discriminate.
      apply Hi in E. simpl in E.
      intros H; inversion H; subst; lia.
    + destruct (scan_once f s) as [v r0| |] eqn:E; try discriminate.
      apply Hs in E.
      pose proof (skip_ws_length r0) as W.
      destruct (skip_ws r0) as [|c r1]; [discriminate|]. simpl in W.
      destruct (c =? 93)%N; [intros H; inversion H; subst; lia|].
      destruct (c =? 44)%N; [|discriminate].
      pose proof (skip_ws_length r1) as W1.
      destruct (array_items f (skip_ws r1)) as [vs r2| |] eqn:E2;
        try discriminate.
      apply Hi in E2.
      intros H; inversion H; subst; lia.
    + pose proof (skip_ws_length s) as W.
      destruct (skip_ws s) as [|c s']; [discriminate|]. simpl in W.
      destruct (c =? 125)%N; [intros H; inversion H; subst; lia|].
      destruct (c =? 34)%N; [|discriminate].
      destruct (object_members f s') as [ps r'| |] eqn:E; try discriminate.
      apply Hm in E.
      intros H; inversion H; subst; lia.
    + destruct (scanstring s) as [[key r0]|] eqn:K; [|discriminate].
      apply scanstring_length in K.
      pose proof (skip_ws_length r0) as W0.
      destruct (skip_ws r0) as [|c r1]; [discriminate|]. simpl in W0.
      destruct (c =? 58)%N; [|discriminate].
      pose proof (skip_ws_length r1) as W1.
      destruct (scan_once f (skip_ws r1)) as [v r2| |] eqn:E;
        try discriminate.
      apply Hs in E.
      pose proof (skip_ws_length r2) as W2.
      destruct (skip_ws r2) as [|d r3]; [discriminate|]. simpl in W2.
      destruct (d =? 125)%N; [intros H; inversion H; subst; lia|].
      destruct (d =? 44)%N; [|discriminate].
      pose proof (skip_ws_length r3) as W3.
      destruct (skip_ws r3) as [|q r4]; [discriminate|]. simpl in W3.
      destruct (q =? 34)%N; [|discriminate].
      destruct (object_members f r4) as [ps r5| |] eqn:E5; try discriminate.
      apply Hm in E5.
      intros H; inversion H; subst; lia.
Qed.

Lemma scan_atom_fuel (s : pystr) : scan_atom s <> NoFuel.
Proof.
  unfold scan_atom.
  repeat match goal with
  | |- context [after_prefix ?lit s] =>
      destruct (after_prefix lit s); [discriminate|]
  | |- context [match_number s] =>
      destruct (match_number s) as [[? ?]|]; [discriminate|]
  end.
  discriminate.
Qed.

(** With fuel in proportion to the text, no call of the scanner stops for
    lack of fuel. *)
Lemma scan_fuel (fuel : nat) :
  (forall s, 3 * length s + 1 <= fuel -> scan_once fuel s <> NoFuel) /\
  (forall s, 3 * length s + 3 <= fuel -> parse_array fuel s <> NoFuel) /\
  (forall s, 3 * length s + 2 <= fuel -> array_items fuel s <> NoFuel) /\
  (forall s, 3 * length s + 3 <= fuel -> parse_object fuel s <> NoFuel) /\
  (forall s, 3 * length s + 2 <= fuel -> object_members fuel s <> NoFuel).
Proof.
  induction fuel as [|f (Hs & Ha & Hi & Ho & Hm)].
  - repeat split; intros s L; lia.
  - destruct (scan_rest_bounded f) as (Bs & Ba & Bi & Bo & Bm).
    repeat split; intros s L; simpl.
    + destruct s as [|c s']; [discriminate|]. simpl in L.
      destruct (c =? 34)%N.
      { destruct (scanstring s') as [[t r']|]; discriminate. }
      destruct (c =? 123)%N; [apply Ho; lia|].
      destruct (c =? 91)%N; [apply Ha; lia|].
      apply scan_atom_fuel.
    + pose proof (skip_ws_length s) as W.
      destruct (skip_ws s) as [|c s']; [discriminate|].
      destruct (c =? 93)%N; [discriminate|].
      assert (N : array_items f (c :: s') <> NoFuel) by (apply Hi; lia).
      destruct (array_items f (c :: s')); congruence || discriminate.
    + assert (N : scan_once f s <> NoFuel) by (apply Hs; lia).
      destruct (scan_once f s) as [v r0| |] eqn:E;
        [|discriminate|congruence].
      apply Bs in E.
      pose proof (skip_ws_length r0) as W.
      destruct (skip_ws r0) as [|c r1]; [discriminate|]. simpl in W.
      destruct (c =? 93)%N; [discriminate|].
      destruct (c =? 44)%N; [|discriminate].
      pose proof (skip_ws_length r1) as W1.
      assert (N1 : array_items f (skip_ws r1) <> NoFuel) by (apply Hi; lia).
      destruct (array_items f (skip_ws r1)); congruence || discriminate.
    + pose proof (skip_ws_length s) as W.
      destruct (skip_ws s) as [|c s']; [discriminate|]. simpl in W.
      destruct (c =? 125)%N; [discriminate|].
      destruct (c =? 34)%N; [|discriminate].
      assert (N : object_members f s' <> NoFuel) by (apply Hm; lia).
      destruct (object_members f s'); congruence || discriminate.
    + destruct (scanstring s) as [[key r0]|] eqn:K; [|discriminate].
      apply scanstring_length in K.
      pose proof (skip_ws_length r0) as W0.
      destruct (skip_ws r0) as [|c r1]; [discriminate|]. simpl in W0.
      destruct (c =? 58)%N; [|discriminate].
      pose proof (skip_ws_length r1) as W1.
      assert (N : scan_once f (skip_ws r1) <> NoFuel) by (apply Hs; lia).
      destruct (scan_once f (skip_ws r1)) as [v r2| |] eqn:E;
        [|discriminate|congruence].
      apply Bs in E.
      pose proof (skip_ws_length r2) as W2.
      destruct (skip_ws r2) as [|d r3]; [discriminate|]. simpl in W2.
      destruct (d =? 125)%N; [discriminate|].
      destruct (d =? 44)%N; [|discriminate].
      pose proof (skip_ws_length r3) as W3.
      destruct (skip_ws r3) as [|q r4]; [discriminate|]. simpl in W3.
      destruct (q =? 34)%N; [|discriminate].
      assert (N5 : object_members f r4 <> NoFuel) by (apply Hm; lia).
      destruct (object_members f r4); congruence || discriminate.
Qed.

(** [json_loads] gives the scanner all the fuel it can use: a [None] of
    [json_loads] is a decoding error, never a lack of fuel. *)
Lemma scan_once_fuel (s : pystr) : scan_once (fuel_for s) s <> NoFuel.
Proof.
  apply (proj1 (scan_fuel (fuel_for s))). unfold fuel_for. lia.
Qed.

End DecoderFuel.

(* ===================================================================== *)
(** * Text literals survive encoding and decoding *)
(* ===================================================================== *)

Section StringRoundTrip.

Local Open Scope N_scope.

Definition control_codes : list N := map N.of_nat (seq 0 32).

Lemma control_codes_complete (c : N) : c < 32 -> In c control_codes.
Proof.
  intros H. unfold control_codes.
  rewrite <- (N2Nat.id c). apply in_map. apply in_seq. lia.
Qed.

(** The six characters written for a control code read back as it. *)
Lemma hex4_hexdigit (c : N) :
  c < 32 -> hex4 48 48 (hexdigit (c / 16)) (hexdigit (c mod 16)) = Some c.
Proof.
  intros H.
  assert (A : forallb (fun c => match hex4 48 48 (hexdigit (c / 16))
                                            (hexdigit (c mod 16)) with
                                | Some d => d =? c
                                | None => false
                                end) control_codes = true)
    by (vm_compute; reflexivity).
  rewrite forallb_forall in A.
  specialize (A c (control_codes_complete c H)).
  destruct (hex4 48 48 (hexdigit (c / 16)) (hexdigit (c mod 16)));
    [|discriminate].
  apply N.eqb_eq in A. congruence.
Qed.

Lemma scanstring_escape_char (c : char) (tail : pystr) :
  scanstring (escape_char c ++ tail) = consed c (scanstring tail).
Proof.
  unfold escape_char.
  destruct (N.eqb_spec c 34) as [->|N34]; [reflexivity|].
  destruct (N.eqb_spec c 92) as [->|N92]; [reflexivity|].
  destruct (N.eqb_spec c 10) as [->|N10]; [reflexivity|].
  destruct (N.eqb_spec c 13) as [->|N13]; [reflexivity|].
  destruct (N.eqb_spec c 9) as [->|N9]; [reflexivity|].
  destruct (N.eqb_spec c 8) as [->|N8]; [reflexivity|].
  destruct (N.eqb_spec c 12) as [->|N12]; [reflexivity|].
  destruct (N.ltb_spec c 32) as [Lt|Ge].
  - cbn [app scanstring]. cbn [N.eqb Pos.eqb].
    rewrite (hex4_hexdigit c Lt).
    assert (S : is_high_surrogate c = false).
    { unfold is_high_surrogate.
      destruct (N.leb_spec 55296 c); [lia|reflexivity]. }
    rewrite S. reflexivity.
  - cbn [app scanstring].
    destruct (N.eqb_spec c 34); [contradiction|].
    destruct (N.eqb_spec c 92); [contradiction|].
    destruct (N.ltb_spec c 32); [lia|reflexivity].
Qed.

(** Decoding the body of an encoded literal gives the text back, and
    stops right after the closing quote. *)
Lemma scanstring_escape (s rest : pystr) :
  scanstring (flat_map escape_char s ++ 34 :: rest) = Some (s, rest).
Proof.
  induction s as [|c s IH]; [reflexivity|].
  cbn [flat_map]. rewrite <- app_assoc.
  rewrite scanstring_escape_char, IH. reflexivity.
Qed.

End StringRoundTrip.
